(** * The ROS2 message codec of the zenoh person-following example

    A shallow embedding of the two byte-level codecs found in
    [task_definitions/ros2/zenoh_person_follow.py] and
    [task_definitions/ros2/monitor_twist_commands.py]:

    - [create_twist_message] / [parse_twist_message]: the fixed 48-byte
      [geometry_msgs/Twist] command;
    - [parse_ros2_image]: the content-sniffing decoder of a
      [sensor_msgs/Image] buffer.

    Python [bytes] are lists of [byte]; Python [int]s are [Z]; a Python
    [float] is an IEEE-754 binary64 datum given by its three interchange
    fields; exceptions are an explicit error monad, and [try]/[except] is
    a handler on that monad.  The payload handed to a decoder is taken as
    [bytes] already.  Logging is not executed: where a function logs an
    error and returns [None], the result type keeps one constructor per
    message, and [returned] gives the value the caller sees. *)

From Stdlib Require Import ZArith List Lia Bool String.
From Stdlib Require Import SpecFloat.
From Stdlib Require Strings.Byte.
From coqutil Require Import Byte Word.LittleEndianList.
Import ListNotations.

Local Open Scope Z_scope.

(* ===================================================================== *)
(** ** Python runtime: exceptions *)
(* ===================================================================== *)

Module Py.

(** The exception classes the two codecs can raise.  All of them derive
    from [Exception], so an [except Exception] clause catches each. *)
Inductive exn : Type :=
| StructError        (* struct.error: wrong buffer size for a format *)
| ZeroDivisionError  (* integer division or modulo by zero *)
| TypeError          (* int() of a complex number *)
| ValueError         (* numpy: cannot reshape array *)
| CvError.           (* cv2.error: empty source image *)

(** A computation either returns a value or raises. *)
Inductive exc (A : Type) : Type :=
| Ret (a : A)
| Raise (e : exn).
Arguments Ret {A} a.
Arguments Raise {A} e.

Definition bind {A B} (m : exc A) (k : A -> exc B) : exc B :=
  match m with
  | Ret a => k a
  | Raise e => Raise e
  end.

(** [try: body except Exception as e: handler e] *)
Definition try_except {A} (body : exc A) (handler : exn -> exc A) : exc A :=
  match body with
  | Ret a => Ret a
  | Raise e => handler e
  end.

Definition raises {A} (m : exc A) : bool :=
  match m with Ret _ => false | Raise _ => true end.

End Py.
Import Py.

Declare Scope py_scope.
Delimit Scope py_scope with py.
Notation "x <- m ;; k" := (bind m (fun x => k))
  (at level 61, m at next level, right associativity) : py_scope.
Notation "' pat <- m ;; k" := (bind m (fun x => match x with pat => k end))
  (at level 61, pat pattern, m at next level, right associativity) : py_scope.
Local Open Scope py_scope.

(* ===================================================================== *)
(** ** Python runtime: [bytes] *)
(* ===================================================================== *)

Module Bytes.

Definition bytes := list byte.

(** [len(b)] *)
Definition len (bs : bytes) : Z := Z.of_nat (List.length bs).

(** Normalisation of one slice bound, as [PySlice_AdjustIndices] does
    for step 1: a negative bound counts from the end, and the result is
    clipped to [0, len]. *)
Definition adjust (n i : Z) : Z :=
  if i <? 0 then Z.max 0 (i + n) else Z.min i n.

(** [b[lo:hi]] *)
Definition slice (bs : bytes) (lo hi : Z) : bytes :=
  let lo' := adjust (len bs) lo in
  let hi' := adjust (len bs) hi in
  firstn (Z.to_nat (hi' - lo')) (skipn (Z.to_nat lo') bs).

(** [b[lo:]] *)
Definition slice_from (bs : bytes) (lo : Z) : bytes :=
  skipn (Z.to_nat (adjust (len bs) lo)) bs.

(** [b[:hi]] *)
Definition slice_to (bs : bytes) (hi : Z) : bytes :=
  firstn (Z.to_nat (adjust (len bs) hi)) bs.

(** [hay.startswith(needle)] *)
Fixpoint starts_with (needle hay : bytes) : bool :=
  match needle, hay with
  | [], _ => true
  | _ :: _, [] => false
  | n :: needle', h :: hay' => Strings.Byte.eqb n h && starts_with needle' hay'
  end.

(** [hay.find(needle)] scanning from index [i]: the lowest index at
    which [needle] occurs, or [-1]. *)
Fixpoint find_from (needle hay : bytes) (i : Z) : Z :=
  if starts_with needle hay then i
  else match hay with
       | [] => -1
       | _ :: hay' => find_from needle hay' (i + 1)
       end.

Definition find (hay needle : bytes) : Z := find_from needle hay 0.

(** [needle] occurs in [hay] at index [i]. *)
Definition occurs_at (needle hay : bytes) (i : Z) : Prop :=
  exists pre post, hay = pre ++ needle ++ post /\ len pre = i.

(** [needle in hay] *)
Definition contains (hay needle : bytes) : Prop :=
  exists pre post, hay = pre ++ needle ++ post.

(** A [bytes] literal written as text. *)
Definition lit (s : string) : bytes := list_byte_of_string s.

End Bytes.
Import Bytes.

(* ===================================================================== *)
(** ** Python runtime: [float] and the [struct] module *)
(* ===================================================================== *)

Module Struct.

(** A Python [float] is a C [double]: one IEEE-754 binary64 datum,
    given here by the three fields of its interchange format. *)
Record binary64 : Type := mk_binary64 {
  sign : bool;   (* 1 bit  *)
  bexp : Z;      (* 11 bits, biased exponent *)
  frac : Z       (* 52 bits, trailing significand *)
}.

Definition wf (d : binary64) : Prop :=
  0 <= bexp d < 2 ^ 11 /\ 0 <= frac d < 2 ^ 52.

Definition wfb (d : binary64) : bool :=
  (0 <=? bexp d) && (bexp d <? 2 ^ 11) && (0 <=? frac d) && (frac d <? 2 ^ 52).

(** [math.isfinite(d)]: neither an infinity nor a NaN. *)
Definition is_finite (d : binary64) : bool := negb (bexp d =? 2047).
Definition is_nan (d : binary64) : bool := (bexp d =? 2047) && negb (frac d =? 0).
Definition is_inf (d : binary64) : bool := (bexp d =? 2047) && (frac d =? 0).

(** The literal [0.0]. *)
Definition zero : binary64 := mk_binary64 false 0 0.

(** The value denoted by a datum, in the Standard Library's
    specification of binary floating point (precision 53, emax 1024). *)
Definition to_SF (d : binary64) : spec_float :=
  if bexp d =? 2047 then
    if frac d =? 0 then S754_infinity (sign d) else S754_nan
  else if bexp d =? 0 then
    match frac d with
    | Zpos m => S754_finite (sign d) m (-1074)
    | _ => S754_zero (sign d)
    end
  else
    match 2 ^ 52 + frac d with
    | Zpos m => S754_finite (sign d) m (bexp d - 1075)
    | _ => S754_nan
    end.

(** The 64-bit pattern of a datum: sign in bit 63, exponent in bits
    62..52, fraction in bits 51..0. *)
Definition bits_of (d : binary64) : Z :=
  Z.b2z (sign d) * 2 ^ 63 + bexp d * 2 ^ 52 + frac d.

Definition of_bits (w : Z) : binary64 :=
  {| sign := Z.testbit w 63;
     bexp := (w / 2 ^ 52) mod 2 ^ 11;
     frac := w mod 2 ^ 52 |}.

(** [struct.pack('<d', d)]: the eight bytes of the pattern, least
    significant first. *)
Definition pack_d (d : binary64) : bytes := le_split 8 (bits_of d).

(** [struct.unpack('<d', bs)[0]] *)
Definition unpack_d (bs : bytes) : exc binary64 :=
  if len bs =? 8 then Ret (of_bits (le_combine bs)) else Raise StructError.

(** [struct.unpack('<I', bs)[0]] *)
Definition unpack_I (bs : bytes) : exc Z :=
  if len bs =? 4 then Ret (le_combine bs) else Raise StructError.

(** [struct.unpack('<ddd', bs)] *)
Definition unpack_ddd (bs : bytes) : exc (binary64 * binary64 * binary64) :=
  if len bs =? 24 then
    Ret (of_bits (le_combine (slice bs 0 8)),
         of_bits (le_combine (slice bs 8 16)),
         of_bits (le_combine (slice bs 16 24)))
  else Raise StructError.

(** [struct.pack_into('<ddd', buffer, offset, a, b, c)] for a
    non-negative [offset]: overwrites 24 bytes of the mutable buffer in
    place, and raises when they do not fit.  The updated buffer is
    returned. *)
Definition pack_into_ddd (buffer : bytes) (offset : Z) (a b c : binary64)
  : exc bytes :=
  if len buffer - offset <? 24 then Raise StructError
  else Ret (slice_to buffer offset
              ++ pack_d a ++ pack_d b ++ pack_d c
              ++ slice_from buffer (offset + 24)).

End Struct.
Import Struct.

(* ===================================================================== *)
(** ** The velocity command: [geometry_msgs/Twist] *)
(* ===================================================================== *)

Module Twist.

Record Vector3 : Type := mk_Vector3 { x : binary64; y : binary64; z : binary64 }.

(** The dictionary returned by [parse_twist_message]. *)
Record twist : Type := mk_twist { linear : Vector3; angular : Vector3 }.

(** [bytearray(n)]: [n] zero bytes. *)
Definition bytearray (n : Z) : bytes := repeat Init.Byte.x00 (Z.to_nat n).

(** The [try] block of [create_twist_message]. *)
Definition create_twist_body (linear_x angular_z : binary64) : exc bytes :=
  let buffer := bytearray 48 in
  buffer <- pack_into_ddd buffer 0 linear_x zero zero ;;
  buffer <- pack_into_ddd buffer 24 zero zero angular_z ;;
  Ret buffer.

(** [create_twist_message(linear_x, angular_z)].  The [except] clause
    calls the function again on [(0.0, 0.0)]; [fuel] bounds the depth of
    that recursion, and [None] means the bound was reached. *)
Fixpoint create_twist_message (fuel : nat) (linear_x angular_z : binary64)
  : option (exc bytes) :=
  match fuel with
  | O => None
  | S fuel' =>
      match create_twist_body linear_x angular_z with
      | Ret buffer => Some (Ret buffer)
      | Raise _ => create_twist_message fuel' zero zero
      end
  end.

(** What [parse_twist_message] reports.  The Python function returns
    [None] on both error paths; they differ in the message logged just
    before, which the constructor records. *)
Inductive parse_result : Type :=
| Parsed (t : twist)                (* return {'linear': ..., 'angular': ...} *)
| MalformedLength (n : Z)           (* "Invalid twist message size"; return None *)
| ParseFailed (e : exn).            (* "Error parsing twist message"; return None *)

(** The value the Python caller receives. *)
Definition returned (r : parse_result) : option twist :=
  match r with Parsed t => Some t | _ => None end.

(** The [try] block of [parse_twist_message]. *)
Definition parse_twist_body (data : bytes) : exc parse_result :=
  if negb (len data =? 48) then Ret (MalformedLength (len data))
  else
    '(linear_x, linear_y, linear_z) <- unpack_ddd (slice data 0 24) ;;
    '(angular_x, angular_y, angular_z) <- unpack_ddd (slice data 24 48) ;;
    Ret (Parsed {| linear := mk_Vector3 linear_x linear_y linear_z;
                   angular := mk_Vector3 angular_x angular_y angular_z |}).

(** [parse_twist_message(data)] *)
Definition parse_twist_message (data : bytes) : exc parse_result :=
  try_except (parse_twist_body data) (fun e => Ret (ParseFailed e)).

End Twist.
Import Twist.

(* ===================================================================== *)
(** ** The camera frame: [sensor_msgs/Image] *)
(* ===================================================================== *)

Module Image.

(** The array returned by [parse_ros2_image]: shape [(height, width, 3)]
    and the pixel bytes in row-major order. *)
Record DecodedFrame : Type := mk_frame {
  height : Z;
  width : Z;
  pixels : bytes
}.

Inductive marker : Type := frame_id | encoding.

(** What [parse_ros2_image] reports.  The Python function returns [None]
    on every error path; the constructor records which message was
    logged before. *)
Inductive decode_result : Type :=
| Frame (f : DecodedFrame)     (* return image_bgr *)
| MarkerNotFound (m : marker)  (* "Could not find ..."; return None *)
| InvalidOffset                (* "Invalid frame_id length position"; return None *)
| DecodeFailed (e : exn).      (* "Error parsing ROS2 image"; return None *)

(** The value the Python caller receives. *)
Definition returned (r : decode_result) : option DecodedFrame :=
  match r with Frame f => Some f | _ => None end.

Definition common_resolutions : list (Z * Z) :=
  [ (640, 480); (800, 600); (1024, 768); (1280, 720); (1280, 960);
    (1920, 1080); (1280, 1024); (1600, 1200) ].

(** The [for w, h in ...: if ...: break] loop: [Some (w, h)] when the
    loop is left by [break], [None] when it runs to its [else]. *)
Fixpoint match_resolution (resolutions : list (Z * Z)) (image_data_size : Z)
  : option (Z * Z) :=
  match resolutions with
  | [] => None
  | (w, h) :: rest =>
      let expected_size := w * h * 3 in
      if Z.abs (expected_size - image_data_size) <? 100 then Some (w, h)
      else match_resolution rest image_data_size
  end.

(** [int(pixels ** 0.5)].  A negative base gives a complex number, on
    which [int] raises; otherwise the double-precision square root is
    truncated, which is the integer square root for every pixel count
    below 2^52 (see [int_sqrt_agrees_small] for the computation on
    doubles). *)
Definition int_sqrt (pixels : Z) : exc Z :=
  if pixels <? 0 then Raise TypeError else Ret (Z.sqrt pixels).

(** [a // b] on Python integers. *)
Definition floordiv (a b : Z) : exc Z :=
  if b =? 0 then Raise ZeroDivisionError else Ret (a / b).

(** The [else] branch of the loop: "Fallback to calculated dimensions". *)
Definition fallback_resolution (image_data_size : Z) : exc (Z * Z) :=
  let pixels := image_data_size / 3 in
  width <- int_sqrt pixels ;;
  height <- floordiv pixels width ;;
  Ret (width, height).

(** The [(width, height)] in force after the loop and its [else]. *)
Definition reconcile (image_data_size : Z) : exc (Z * Z) :=
  match match_resolution common_resolutions image_data_size with
  | Some (w, h) => Ret (w, h)
  | None => fallback_resolution image_data_size
  end.

(** [image_array.reshape((height, width, 3))] on a flat array: the shape
    must account for every element.  The dimensions reaching it are never
    negative, so numpy's [-1] placeholder is left out. *)
Definition reshape (image_array : bytes) (height width : Z) : exc DecodedFrame :=
  if (0 <=? height) && (0 <=? width) && (len image_array =? height * width * 3)
  then Ret (mk_frame height width image_array)
  else Raise ValueError.

(** Swap the first and third channel of every pixel. *)
Fixpoint swap_rb (px : bytes) : bytes :=
  match px with
  | r :: g :: b :: rest => b :: g :: r :: swap_rb rest
  | _ => px
  end.

(** [cv2.cvtColor(image_array, cv2.COLOR_RGB2BGR)] *)
Definition cvtColor_RGB2BGR (a : DecodedFrame) : exc DecodedFrame :=
  if len (pixels a) =? 0 then Raise CvError
  else Ret (mk_frame (height a) (width a) (swap_rb (pixels a))).

Definition header_size (rgb8_pos : Z) : Z := rgb8_pos + 5 + 1 + 4.

(** Lines 63-109 of the [try] block: from "Calculate image data size and
    find matching resolution" to the [return].  [height] and [width] are
    the values parsed from the dimension fields. *)
Definition decode_pixels (payload_bytes : bytes) (rgb8_pos height width : Z)
  : exc decode_result :=
  let total_payload := len payload_bytes in
  let image_data_size := total_payload - header_size rgb8_pos in
  '(width, height) <- reconcile image_data_size ;;
  let offset := rgb8_pos + 5 + 1 + 4 in
  let image_data := slice_from payload_bytes offset in
  let image_array := image_data in
  let expected_pixels := height * width * 3 in
  let image_array :=
    if len image_array >? expected_pixels
    then slice_to image_array expected_pixels
    else image_array in
  image_array <- reshape image_array height width ;;
  image_bgr <- cvtColor_RGB2BGR image_array ;;
  Ret (Frame image_bgr).

(** The [try] block of [parse_ros2_image]. *)
Definition parse_ros2_image_body (payload_bytes : bytes) : exc decode_result :=
  let camera_pos := find payload_bytes (lit "camera") in
  if camera_pos =? -1 then Ret (MarkerNotFound frame_id)
  else
    let frame_id_len_pos := camera_pos - 4 in
    if frame_id_len_pos <? 0 then Ret InvalidOffset
    else
      frame_id_len <-
        unpack_I (slice payload_bytes frame_id_len_pos (frame_id_len_pos + 4)) ;;
      let frame_id_end := camera_pos + frame_id_len in
      height <- unpack_I (slice payload_bytes frame_id_end (frame_id_end + 4)) ;;
      width <- unpack_I (slice payload_bytes (frame_id_end + 4) (frame_id_end + 8)) ;;
      let rgb8_pos := find payload_bytes (lit "rgb8") in
      if rgb8_pos =? -1 then Ret (MarkerNotFound encoding)
      else decode_pixels payload_bytes rgb8_pos height width.

(** [parse_ros2_image(payload)] *)
Definition parse_ros2_image (payload_bytes : bytes) : exc decode_result :=
  try_except (parse_ros2_image_body payload_bytes)
             (fun e => Ret (DecodeFailed e)).

End Image.
Import Image.

(* ===================================================================== *)
(** ** Vocabulary of the statements *)
(* ===================================================================== *)

(** The six doubles written by the encoder, in wire order. *)
Definition twist_wire (linear_x angular_z : binary64) : bytes :=
  pack_d linear_x ++ pack_d zero ++ pack_d zero
    ++ pack_d zero ++ pack_d zero ++ pack_d angular_z.

(** The test of the loop body. *)
Definition within_tolerance (image_data_size : Z) (wh : Z * Z) : bool :=
  Z.abs (fst wh * snd wh * 3 - image_data_size) <? 100.

(** What the decoder holds when it reaches the reconciliation (line 63):
    the [height] and [width] read from the dimension fields and the
    position of the encoding marker; [None] when it returned or raised
    before. *)
Definition header_of (payload_bytes : bytes) : option (Z * Z * Z) :=
  let camera_pos := find payload_bytes (lit "camera") in
  if (camera_pos =? -1) || (camera_pos - 4 <? 0) then None
  else
    let frame_id_len_pos := camera_pos - 4 in
    match unpack_I (slice payload_bytes frame_id_len_pos (frame_id_len_pos + 4)) with
    | Raise _ => None
    | Ret frame_id_len =>
        let frame_id_end := camera_pos + frame_id_len in
        match unpack_I (slice payload_bytes frame_id_end (frame_id_end + 4)),
              unpack_I (slice payload_bytes (frame_id_end + 4) (frame_id_end + 8)) with
        | Ret height, Ret width =>
            let rgb8_pos := find payload_bytes (lit "rgb8") in
            if rgb8_pos =? -1 then None else Some (height, width, rgb8_pos)
        | _, _ => None
        end
    end.

(** The double nearest to 0.3, the forward speed used when a person is
    seen. *)
Definition d0_3 : binary64 := mk_binary64 false 1021 900719925474099.

(** A quiet NaN, and the two infinities. *)
Definition qnan : binary64 := mk_binary64 false 2047 2251799813685248.
Definition pos_inf : binary64 := mk_binary64 false 2047 0.
Definition neg_inf : binary64 := mk_binary64 true 2047 0.

(** A 48-byte command carrying them. *)
Definition nan_inf_wire : bytes :=
  pack_d qnan ++ pack_d pos_inf ++ pack_d neg_inf
    ++ pack_d d0_3 ++ pack_d zero ++ pack_d qnan.

(** *** The square root in double precision

    [pixels ** 0.5] is computed on doubles: [pixels] is converted, the
    root is rounded to nearest, and [int] truncates the result. *)

Definition float_of_int (n : Z) : spec_float := binary_normalize 53 1024 n 0 false.

Definition int_of_float (f : spec_float) : option Z :=
  match f with
  | S754_zero _ => Some 0
  | S754_finite s m e =>
      let a := if 0 <=? e then Zpos m * 2 ^ e else Zpos m / 2 ^ (- e) in
      Some (if s then - a else a)
  | _ => None
  end.

Definition binary64_sqrt_floor (n : Z) : option Z :=
  int_of_float (SFsqrt 53 1024 (float_of_int n)).

Definition sqrt_agrees (n : Z) : bool :=
  match binary64_sqrt_floor n with
  | Some r => r =? Z.sqrt n
  | None => false
  end.

(** *** Synthetic frames *)

(** [struct.pack('<I', n)] *)
Definition u32 (n : Z) : bytes := le_split 4 n.

(** A frame buffer in the layout the decoder expects: the length-prefixed
    identifier ["camera"], the two dimension fields, the length-prefixed
    encoding tag, the endianness flag, the row step, and the pixels. *)
Definition synthetic_frame (hdr_height hdr_width : Z) (px : bytes) : bytes :=
  u32 7 ++ lit "camera" ++ [Init.Byte.x00]
    ++ u32 hdr_height ++ u32 hdr_width
    ++ u32 5 ++ lit "rgb8" ++ [Init.Byte.x00]
    ++ [Init.Byte.x00] ++ u32 (hdr_width * 3)
    ++ px.

Definition zeros (n : Z) : bytes := repeat Init.Byte.x00 (Z.to_nat n).

Definition frame_640x480 : bytes := synthetic_frame 7 9 (zeros (640 * 480 * 3)).

Definition frame_640x480_padded : bytes :=
  synthetic_frame 480 640 (zeros (640 * 480 * 3) ++ repeat Init.Byte.xff 50).

Definition frame_301x173 : bytes := synthetic_frame 173 301 (zeros (301 * 173 * 3)).

Definition frame_1x1 : bytes :=
  synthetic_frame 1 1 [Init.Byte.x01; Init.Byte.x02; Init.Byte.x03].

Definition frame_2_bytes : bytes :=
  synthetic_frame 1 1 [Init.Byte.x01; Init.Byte.x02].

Definition frame_640x480_short : bytes :=
  synthetic_frame 480 640 (zeros (640 * 480 * 3 - 1)).

(** A buffer that ends four bytes after the encoding marker begins: the
    header, counted to [rgb8_pos + 10], runs past its end. *)
Definition frame_header_past_end : bytes := u32 0 ++ lit "camerargb8".


(* ===================================================================== *)
(** ** Comparison and truncation of doubles *)
(* ===================================================================== *)

Module Float.

(** [d > 0] and [d < 0] against the integer 0: false on a NaN and on
    either zero. *)
Definition gt_zero (d : binary64) : bool := SFltb (S754_zero false) (to_SF d).
Definition lt_zero (d : binary64) : bool := SFltb (to_SF d) (S754_zero false).

Definition is_zero (d : binary64) : bool := (bexp d =? 0) && (frac d =? 0).

End Float.

(* ===================================================================== *)
(** ** The command monitor: [on_twist_received] *)
(* ===================================================================== *)

Module Monitor.

Inductive action : Type := MOVING_FORWARD | STOPPED.

(** What the callback logs for one sample. *)
Inductive report : Type :=
| TwistCommand (t : twist) (a : action)  (* the command, then "Action: ..." *)
| FailedToParse                          (* "Failed to parse twist message" *)
| ProcessingError (e : exn).             (* "Error processing twist command" *)

(** The [try] block of [on_twist_received], on the bytes of the sample. *)
Definition on_twist_body (data : bytes) : exc report :=
  r <- parse_twist_message data ;;
  match Twist.returned r with
  | Some t =>
      if Float.gt_zero (x (linear t))
      then Ret (TwistCommand t MOVING_FORWARD)
      else Ret (TwistCommand t STOPPED)
  | None => Ret FailedToParse
  end.

(** [on_twist_received(sample)] *)
Definition on_twist_received (data : bytes) : report :=
  match on_twist_body data with
  | Ret r => r
  | Raise e => ProcessingError e
  end.

End Monitor.

(* ===================================================================== *)
(** ** The follower: [on_image_received] *)
(* ===================================================================== *)

Module Follow.

(** The collaborators of the callback.  [detect_human_with_qwen] has its
    own catch-all handler and always returns a verdict and an answer; the
    request for a description runs inside a handler of its own and leaves
    no trace in what follows. *)
Record collaborators : Type := {
  imwrite : DecodedFrame -> exc bool;                       (* cv2.imwrite *)
  detect_human_with_qwen : DecodedFrame -> bool * string
}.

(** The [try] block of [on_image_received]; the value is the list of the
    buffers handed to [publisher.put]. *)
Definition on_image_body (fuel : nat) (c : collaborators) (payload : bytes)
  : option (exc (list bytes)) :=
  match parse_ros2_image payload with
  | Raise e => Some (Raise e)
  | Ret r =>
      match Image.returned r with
      | Some image =>
          match imwrite c image with
          | Raise e => Some (Raise e)
          | Ret _ =>
              let '(human_detected, qwen_answer) := detect_human_with_qwen c image in
              let '(linear_x, angular_z) :=
                if human_detected then (d0_3, zero) else (zero, zero) in
              match create_twist_message fuel linear_x angular_z with
              | None => None
              | Some (Raise e) => Some (Raise e)
              | Some (Ret twist_data) => Some (Ret [twist_data])
              end
          end
      | None => Some (Ret [])
      end
  end.

(** [on_image_received(sample, publisher)]: what is published. *)
Definition on_image_received (fuel : nat) (c : collaborators) (payload : bytes)
  : option (list bytes) :=
  match on_image_body fuel c payload with
  | None => None
  | Some (Ret published) => Some published
  | Some (Raise _) => Some []
  end.

End Follow.

(* ===================================================================== *)
(** ** The task gists: factorial and Fibonacci *)
(* ===================================================================== *)

Module Gist.

Inductive error : Type := ValueError | IndexError | OverflowError.

Inductive res (A : Type) : Type :=
| Return (a : A)
| Raised (e : error).
Arguments Return {A} a.
Arguments Raised {A} e.

Definition and_then {A B} (m : res A) (k : A -> res B) : res B :=
  match m with
  | Return a => k a
  | Raised e => Raised e
  end.

(** [range(lo, hi)] *)
Definition range (lo hi : Z) : list Z :=
  map (fun k => lo + Z.of_nat k) (seq 0 (Z.to_nat (hi - lo))).

(** [l[i]] on a list of integers. *)
Definition getitem (l : list Z) (i : Z) : res Z :=
  let n := Z.of_nat (List.length l) in
  let j := if i <? 0 then i + n else i in
  if (j <? 0) || (n <=? j) then Raised IndexError
  else Return (nth (Z.to_nat j) l 0).

(** *** factorial.py *)

(** [factorial(n)]; [fuel] bounds the depth of the recursion. *)
Fixpoint factorial (fuel : nat) (n : Z) : option (res Z) :=
  match fuel with
  | O => None
  | S fuel' =>
      if n <? 0 then Some (Raised ValueError)
      else if (n =? 0) || (n =? 1) then Some (Return 1)
      else match factorial fuel' (n - 1) with
           | Some (Return r) => Some (Return (n * r))
           | Some (Raised e) => Some (Raised e)
           | None => None
           end
  end.

(** [factorial_iterative(n)] *)
Definition factorial_iterative (n : Z) : res Z :=
  if n <? 0 then Raised ValueError
  else Return (fold_left (fun result i => result * i) (range 1 (n + 1)) 1).

(** *** fibonacci.py *)

(** [fibonacci_recursive(n)]; [fuel] bounds the depth of the recursion. *)
Fixpoint fibonacci_recursive (fuel : nat) (n : Z) : option (res (list Z)) :=
  match fuel with
  | O => None
  | S fuel' =>
      if n <=? 0 then Some (Return [])
      else if n =? 1 then Some (Return [0])
      else if n =? 2 then Some (Return [0; 1])
      else match fibonacci_recursive fuel' (n - 1) with
           | Some (Return sequence) =>
               Some (and_then (getitem sequence (-1)) (fun a =>
                     and_then (getitem sequence (-2)) (fun b =>
                     Return (sequence ++ [a + b]))))
           | Some (Raised e) => Some (Raised e)
           | None => None
           end
  end.

(** One turn of the loop of [fibonacci_iterative]. *)
Definition iterative_step (acc : res (list Z)) (i : Z) : res (list Z) :=
  and_then acc (fun sequence =>
  and_then (getitem sequence (i - 1)) (fun a =>
  and_then (getitem sequence (i - 2)) (fun b =>
  Return (sequence ++ [a + b])))).

(** [fibonacci_iterative(n)] *)
Definition fibonacci_iterative (n : Z) : res (list Z) :=
  if n <=? 0 then Return []
  else if n =? 1 then Return [0]
  else if n =? 2 then Return [0; 1]
  else fold_left iterative_step (range 2 n) (Return [0; 1]).

(** One turn of the loop of [fibonacci_generator]: the state is
    [(a, b, sequence)]. *)
Definition generator_step (st : Z * Z * list Z) (_ : Z) : Z * Z * list Z :=
  let '(a, b, sequence) := st in (b, a + b, sequence ++ [a]).

(** [fibonacci_generator(n)] *)
Definition fibonacci_generator (n : Z) : res (list Z) :=
  if n <=? 0 then Return []
  else Return (snd (fold_left generator_step (range 0 n) (0, 1, []))).

(** *** The two scripts *)

(** The values the [inputs] dictionary may hold. *)
Inductive py_value : Type :=
| PyInt (i : Z)
| PyBool (b : bool)
| PyFloat (d : binary64)
| PyStr (s : string)
| PyNone.

(** A dictionary, as the list of its items. *)
Definition dict : Type := list (string * py_value).

(** [d.get(key, default)] *)
Fixpoint dict_get (d : dict) (key : string) (default : py_value) : py_value :=
  match d with
  | [] => default
  | (k, v) :: rest => if String.eqb k key then v else dict_get rest key default
  end.

(** [isinstance(v, (int, float))]; [bool] is a subclass of [int]. *)
Definition is_number (v : py_value) : bool :=
  match v with
  | PyInt _ | PyBool _ | PyFloat _ => true
  | PyStr _ | PyNone => false
  end.

(** [v < 0], evaluated on numbers only. *)
Definition negative (v : py_value) : bool :=
  match v with
  | PyInt i => i <? 0
  | PyBool _ => false
  | PyFloat d => Float.lt_zero d
  | PyStr _ | PyNone => false
  end.

(** [int(v)] on a number: a double is truncated toward zero; a NaN and
    the infinities have no integer value. *)
Definition to_int (v : py_value) : res Z :=
  match v with
  | PyInt i => Return i
  | PyBool b => Return (Z.b2z b)
  | PyFloat d =>
      match to_SF d with
      | S754_nan => Raised ValueError
      | S754_infinity _ => Raised OverflowError
      | f => match int_of_float f with
             | Some i => Return i
             | None => Raised ValueError
             end
      end
  | PyStr _ | PyNone => Raised ValueError
  end.

(** What the wrapper and the clock supply to a script. *)
Record environment : Type := {
  inputs : dict;
  worker_id : string;
  computation_time_ms : Z;  (* int((time.time() - start_time) * 1000) *)
  timestamp : string        (* time.strftime("%Y-%m-%d %H:%M:%S") *)
}.

(** The [result] dictionary of factorial.py. *)
Record factorial_result : Type := {
  r_factorial : Z;
  r_input_number : Z;
  r_computation_time_ms : Z;
  r_worker_id : string;
  r_method : string;
  r_timestamp : string
}.

(** factorial.py, lines 25-52. *)
Definition factorial_script (e : environment) : res factorial_result :=
  let number := dict_get (inputs e) "number" (PyInt 10) in
  if negb (is_number number) || negative number then Raised ValueError
  else
    and_then (to_int number) (fun number =>
    and_then (factorial_iterative number) (fun factorial_result =>
    Return {| r_factorial := factorial_result;
              r_input_number := number;
              r_computation_time_ms := computation_time_ms e;
              r_worker_id := worker_id e;
              r_method := "iterative";
              r_timestamp := timestamp e |})).

(** The [result] dictionary of fibonacci.py. *)
Record fibonacci_result : Type := {
  r_sequence : list Z;
  r_terms : Z;
  r_last_term : option Z;
  f_computation_time_ms : Z;
  f_worker_id : string;
  f_method : string;
  f_timestamp : string;
  r_sequence_sum : Z
}.

(** [sum(l)] *)
Definition sum (l : list Z) : Z := fold_left Z.add l 0.

(** fibonacci.py, lines 102-131. *)
Definition fibonacci_script (e : environment) : res fibonacci_result :=
  let terms := dict_get (inputs e) "terms" (PyInt 10) in
  if negb (is_number terms) || negative terms then Raised ValueError
  else
    and_then (to_int terms) (fun terms =>
    and_then (fibonacci_iterative terms) (fun sequence =>
    and_then (match sequence with
              | [] => Return None
              | _ :: _ => and_then (getitem sequence (-1)) (fun v => Return (Some v))
              end) (fun last_term =>
    Return {| r_sequence := sequence;
              r_terms := Z.of_nat (List.length sequence);
              r_last_term := last_term;
              f_computation_time_ms := computation_time_ms e;
              f_worker_id := worker_id e;
              f_method := "iterative";
              f_timestamp := timestamp e;
              r_sequence_sum := match sequence with
                                | [] => 0
                                | _ :: _ => sum sequence
                                end |}))).

End Gist.

(** *** Vocabulary of the further properties *)

(** The Fibonacci numbers: [Fib 0 = 0], [Fib 1 = 1],
    [Fib (k + 2) = Fib (k + 1) + Fib k]. *)
Fixpoint fib_pair (k : nat) : Z * Z :=
  match k with
  | O => (0, 1)
  | S k' => let '(a, b) := fib_pair k' in (b, a + b)
  end.

Definition Fib (k : nat) : Z := fst (fib_pair k).

(** The first [n] Fibonacci numbers. *)
Definition Fib_prefix (n : nat) : list Z := map Fib (seq 0 n).

(** Collaborators that always succeed, with a fixed verdict. *)
Definition steady (verdict : bool) : Follow.collaborators :=
  {| Follow.imwrite := fun _ => Ret true;
     Follow.detect_human_with_qwen := fun _ => (verdict, ""%string) |}.

Definition env_of (d : Gist.dict) : Gist.environment :=
  {| Gist.inputs := d; Gist.worker_id := "worker-1";
     Gist.computation_time_ms := 0; Gist.timestamp := "2024-01-01 00:00:00" |}.

(* ===================================================================== *)
(** ** Facts about [bytes] *)
(* ===================================================================== *)

Section BytesFacts.

Lemma len_nonneg (bs : bytes) : 0 <= len bs.
Proof. unfold len. lia. Qed.

Lemma len_app (l1 l2 : bytes) : len (l1 ++ l2) = len l1 + len l2.
Proof. unfold len. rewrite length_app. lia. Qed.

Lemma len_cons (a : byte) (l : bytes) : len (a :: l) = 1 + len l.
Proof. unfold len. cbn [List.length]. lia. Qed.

Lemma adjust_in_range (n i : Z) : 0 <= i <= n -> adjust n i = i.
Proof. unfold adjust. intros H. destruct (Z.ltb_spec i 0); lia. Qed.

Lemma adjust_past_end (n i : Z) : 0 <= n <= i -> adjust n i = n.
Proof. unfold adjust. intros H. destruct (Z.ltb_spec i 0); lia. Qed.

Lemma adjust_bounds (n i : Z) : 0 <= n -> 0 <= adjust n i <= n.
Proof. unfold adjust. intros H. destruct (Z.ltb_spec i 0); lia. Qed.

(** A slice with both bounds inside the buffer. *)
Lemma slice_inside (bs : bytes) (lo hi : Z) :
  0 <= lo <= hi -> hi <= len bs ->
  slice bs lo hi = firstn (Z.to_nat (hi - lo)) (skipn (Z.to_nat lo) bs)
  /\ len (slice bs lo hi) = hi - lo.
Proof.
  intros H1 H2. unfold slice.
  rewrite !adjust_in_range by lia. split; [reflexivity|].
  unfold len in *. rewrite length_firstn, length_skipn. lia.
Qed.

Lemma len_slice (bs : bytes) (lo hi : Z) :
  0 <= lo -> 0 <= hi ->
  len (slice bs lo hi) = Z.max 0 (Z.min hi (len bs) - Z.min lo (len bs)).
Proof.
  intros H1 H2. unfold slice, adjust.
  destruct (Z.ltb_spec lo 0); [lia|]. destruct (Z.ltb_spec hi 0); [lia|].
  unfold len. rewrite length_firstn, length_skipn. lia.
Qed.

Lemma slice_from_inside (bs : bytes) (lo : Z) :
  0 <= lo <= len bs ->
  slice_from bs lo = skipn (Z.to_nat lo) bs /\ len (slice_from bs lo) = len bs - lo.
Proof.
  intros H. unfold slice_from. rewrite adjust_in_range by lia.
  split; [reflexivity|]. unfold len in *. rewrite length_skipn. lia.
Qed.

Lemma slice_from_past_end (bs : bytes) (lo : Z) :
  len bs <= lo -> slice_from bs lo = [].
Proof.
  intros H. pose proof (len_nonneg bs). unfold slice_from.
  rewrite adjust_past_end by lia. apply skipn_all2. unfold len. lia.
Qed.

Lemma len_slice_from (bs : bytes) (lo : Z) :
  0 <= lo -> len (slice_from bs lo) = Z.max 0 (len bs - lo).
Proof.
  intros H. destruct (Z.le_gt_cases lo (len bs)).
  - destruct (slice_from_inside bs lo ltac:(lia)) as [_ ->]. lia.
  - rewrite slice_from_past_end by lia. change (len []) with 0. lia.
Qed.

Lemma slice_to_inside (bs : bytes) (hi : Z) :
  0 <= hi <= len bs ->
  slice_to bs hi = firstn (Z.to_nat hi) bs /\ len (slice_to bs hi) = hi.
Proof.
  intros H. unfold slice_to. rewrite adjust_in_range by lia.
  split; [reflexivity|]. unfold len in *. rewrite length_firstn. lia.
Qed.

(** Slicing a concatenation at the seam. *)
Lemma slice_app_left (l1 l2 : bytes) : slice (l1 ++ l2) 0 (len l1) = l1.
Proof.
  pose proof (len_nonneg l1). pose proof (len_nonneg l2).
  destruct (slice_inside (l1 ++ l2) 0 (len l1)) as [-> _]; rewrite ?len_app; try lia.
  cbn [Z.to_nat skipn]. rewrite Z.sub_0_r. unfold len. rewrite Nat2Z.id.
  rewrite firstn_app, Nat.sub_diag, firstn_all. cbn. apply app_nil_r.
Qed.

Lemma slice_app_skip (l1 l2 : bytes) (lo hi : Z) :
  0 <= lo -> 0 <= hi ->
  slice (l1 ++ l2) (len l1 + lo) (len l1 + hi) = slice l2 lo hi.
Proof.
  intros Hlo Hhi. pose proof (len_nonneg l1). pose proof (len_nonneg l2).
  unfold slice. rewrite len_app. unfold adjust.
  destruct (Z.ltb_spec (len l1 + lo) 0); [lia|].
  destruct (Z.ltb_spec (len l1 + hi) 0); [lia|].
  destruct (Z.ltb_spec lo 0); [lia|]. destruct (Z.ltb_spec hi 0); [lia|].
  replace (Z.min (len l1 + hi) (len l1 + len l2) - Z.min (len l1 + lo) (len l1 + len l2))
    with (Z.min hi (len l2) - Z.min lo (len l2)) by lia.
  f_equal.
  replace (Z.to_nat (Z.min (len l1 + lo) (len l1 + len l2)))
    with (List.length l1 + Z.to_nat (Z.min lo (len l2)))%nat by (unfold len in *; lia).
  rewrite skipn_app. rewrite skipn_all2 by lia. cbn [app]. f_equal. lia.
Qed.

Lemma slice_from_app_skip (l1 l2 : bytes) (lo : Z) :
  0 <= lo -> slice_from (l1 ++ l2) (len l1 + lo) = slice_from l2 lo.
Proof.
  intros Hlo. pose proof (len_nonneg l1). pose proof (len_nonneg l2).
  unfold slice_from. rewrite len_app. unfold adjust.
  destruct (Z.ltb_spec (len l1 + lo) 0); [lia|]. destruct (Z.ltb_spec lo 0); [lia|].
  replace (Z.to_nat (Z.min (len l1 + lo) (len l1 + len l2)))
    with (List.length l1 + Z.to_nat (Z.min lo (len l2)))%nat by (unfold len in *; lia).
  rewrite skipn_app. rewrite skipn_all2 by lia. cbn [app]. f_equal. lia.
Qed.

(** *** Substring search *)

Lemma starts_with_iff (needle hay : bytes) :
  starts_with needle hay = true <-> exists post, hay = needle ++ post.
Proof.
  revert hay. induction needle as [|n needle IH]; intros hay; cbn [starts_with].
  - split; [intros _; exists hay; reflexivity | reflexivity].
  - destruct hay as [|h hay].
    + split; [discriminate | intros [post H]; discriminate].
    + rewrite andb_true_iff, IH. split.
      * intros [Hb [post ->]]. apply Strings.Byte.byte_dec_bl in Hb. subst.
        exists post. reflexivity.
      * intros [post H]. cbn in H. injection H as -> ->. split.
        -- apply Strings.Byte.byte_dec_lb. reflexivity.
        -- exists post. reflexivity.
Qed.

Lemma find_from_cases (needle hay : bytes) (i : Z) :
  find_from needle hay i = -1
  \/ i <= find_from needle hay i <= i + len hay.
Proof.
  revert i. induction hay as [|h hay IH]; intros i; cbn [find_from].
  - destruct (starts_with needle []); [right; unfold len; cbn; lia | left; reflexivity].
  - destruct (starts_with needle (h :: hay)).
    + right. pose proof (len_nonneg (h :: hay)). lia.
    + destruct (IH (i + 1)) as [-> | H]; [left; reflexivity | right].
      rewrite len_cons. lia.
Qed.

(** A hit of the scan is an occurrence, and nothing occurs before it. *)
Lemma find_from_hit (needle hay : bytes) (i r : Z) :
  0 <= i -> find_from needle hay i = r -> r <> -1 ->
  occurs_at needle hay (r - i)
  /\ forall j, 0 <= j < r - i -> ~ occurs_at needle hay j.
Proof.
  revert i r. induction hay as [|h hay IH]; intros i r Hi Hr Hne; cbn [find_from] in Hr.
  - destruct (starts_with needle []) eqn:E; [|congruence]. subst r.
    apply starts_with_iff in E. destruct E as [post E]. split.
    + exists [], post. split; [exact E | unfold len; cbn; lia].
    + intros j Hj. lia.
  - destruct (starts_with needle (h :: hay)) eqn:E.
    + subst r. apply starts_with_iff in E. destruct E as [post E]. split.
      * exists [], post. split; [exact E | unfold len; cbn; lia].
      * intros j Hj. lia.
    + destruct (find_from_cases needle hay (i + 1)) as [Hc | Hc]; [congruence|].
      destruct (IH (i + 1) r ltac:(lia) Hr Hne) as [[pre [post [Hh Hl]]] Hmin]. split.
      * exists (h :: pre), post. split; [cbn; congruence | rewrite len_cons; lia].
      * intros j Hj [pre' [post' [Hh' Hl']]].
        destruct pre' as [|a pre'].
        -- cbn [app] in Hh'.
           assert (starts_with needle (h :: hay) = true) as Hs
               by (apply starts_with_iff; exists post'; exact Hh').
           congruence.
        -- cbn in Hh'. injection Hh' as <- Hhay. rewrite len_cons in Hl'.
           pose proof (len_nonneg pre').
           apply (Hmin (j - 1)); [lia|]. exists pre', post'. split; [exact Hhay | lia].
Qed.

(** The scan misses exactly when the needle occurs nowhere. *)
Lemma find_from_miss (needle hay : bytes) (i : Z) :
  0 <= i -> (find_from needle hay i = -1 <-> ~ contains hay needle).
Proof.
  intros Hi. split.
  - revert i Hi. induction hay as [|h hay IH]; intros i Hi Hr [pre [post Hh]];
      cbn [find_from] in Hr.
    + destruct pre; [|discriminate]. cbn [app] in Hh.
      assert (starts_with needle [] = true) as Hs
          by (apply starts_with_iff; exists post; exact Hh).
      rewrite Hs in Hr. lia.
    + destruct (starts_with needle (h :: hay)) eqn:E; [lia|].
      destruct pre as [|a pre].
      * cbn [app] in Hh.
        assert (starts_with needle (h :: hay) = true) as Hs
            by (apply starts_with_iff; exists post; exact Hh).
        congruence.
      * cbn in Hh. injection Hh as <- Hhay.
        apply (IH (i + 1) ltac:(lia) Hr). exists pre, post. exact Hhay.
  - intros Hno. destruct (Z.eq_dec (find_from needle hay i) (-1)) as [E | E]; [exact E|].
    exfalso. apply Hno.
    destruct (find_from_hit needle hay i _ Hi eq_refl E) as [[pre [post [Hh _]]] _].
    exists pre, post. exact Hh.
Qed.

Lemma find_miss_iff (hay needle : bytes) :
  find hay needle = -1 <-> ~ contains hay needle.
Proof. unfold find. apply find_from_miss. lia. Qed.

Lemma find_hit (hay needle : bytes) (p : Z) :
  find hay needle = p -> p <> -1 ->
  0 <= p /\ occurs_at needle hay p /\ forall j, 0 <= j < p -> ~ occurs_at needle hay j.
Proof.
  unfold find. intros Hp Hne.
  destruct (find_from_hit needle hay 0 p ltac:(lia) Hp Hne) as [Ho Hmin].
  rewrite Z.sub_0_r in *.
  destruct (find_from_cases needle hay 0) as [Hc | Hc]; [congruence|].
  repeat split; [lia | exact Ho | exact Hmin].
Qed.

(** An occurrence lies wholly inside the buffer. *)
Lemma occurs_at_bound (needle hay : bytes) (i : Z) :
  occurs_at needle hay i -> 0 <= i /\ i + len needle <= len hay.
Proof.
  intros [pre [post [-> Hl]]]. rewrite !len_app.
  pose proof (len_nonneg pre). pose proof (len_nonneg post). lia.
Qed.

End BytesFacts.

(* ===================================================================== *)
(** ** Facts about [struct] and binary64 *)
(* ===================================================================== *)

Section StructFacts.

Lemma wfb_wf (d : binary64) : wfb d = true <-> wf d.
Proof.
  unfold wfb, wf. rewrite !andb_true_iff, !Z.leb_le, !Z.ltb_lt. tauto.
Qed.

Lemma bits_of_range (d : binary64) : wf d -> 0 <= bits_of d < 2 ^ 64.
Proof.
  unfold wf, bits_of. intros [He Hf].
  change (2 ^ 11) with 2048 in He.
  change (2 ^ 52) with 4503599627370496 in *.
  change (2 ^ 63) with 9223372036854775808.
  change (2 ^ 64) with 18446744073709551616.
  destruct (sign d); cbn [Z.b2z]; lia.
Qed.

(** The three fields are recovered from the 64-bit pattern. *)
Lemma of_bits_bits_of (d : binary64) : wf d -> of_bits (bits_of d) = d.
Proof.
  destruct d as [s e f]. unfold wf, of_bits, bits_of. cbn [sign bexp frac].
  intros [He Hf].
  change (2 ^ 11) with 2048 in *.
  change (2 ^ 52) with 4503599627370496 in *.
  change (2 ^ 63) with 9223372036854775808.
  assert (Hs : Z.testbit (Z.b2z s * 9223372036854775808 + e * 4503599627370496 + f) 63 = s).
  { apply Z.b2z_inj. rewrite Z.testbit_spec' by lia.
    change (2 ^ 63) with 9223372036854775808.
    destruct s; cbn [Z.b2z]; Z.div_mod_to_equations; lia. }
  rewrite Hs. f_equal.
  - destruct s; cbn [Z.b2z]; Z.div_mod_to_equations; lia.
  - destruct s; cbn [Z.b2z]; Z.div_mod_to_equations; lia.
Qed.

(** Every 64-bit pattern is the pattern of the datum it decodes to. *)
Lemma of_bits_wf (w : Z) : wf (of_bits w).
Proof.
  unfold wf, of_bits. cbn [bexp frac]. split; apply Z.mod_pos_bound; reflexivity.
Qed.

Lemma length_pack_d (d : binary64) : List.length (pack_d d) = 8%nat.
Proof. unfold pack_d. apply length_le_split. Qed.

Lemma len_pack_d (d : binary64) : len (pack_d d) = 8.
Proof. unfold len. rewrite length_pack_d. reflexivity. Qed.

Lemma le_combine_pack_d (d : binary64) : wf d -> le_combine (pack_d d) = bits_of d.
Proof.
  intros H. unfold pack_d. rewrite le_combine_split.
  apply Z.mod_small. change (Z.of_nat 8 * 8) with 64. apply bits_of_range, H.
Qed.

(** [struct.unpack('<d', struct.pack('<d', d))[0]] is [d], field for
    field. *)
Lemma unpack_d_pack_d (d : binary64) : wf d -> unpack_d (pack_d d) = Ret d.
Proof.
  intros H. unfold unpack_d. rewrite len_pack_d. cbn [Z.eqb Pos.eqb].
  rewrite le_combine_pack_d, of_bits_bits_of by exact H. reflexivity.
Qed.

(** [0.0] is the all-zero pattern. *)
Lemma pack_d_zero : pack_d zero = repeat Init.Byte.x00 8.
Proof. reflexivity. Qed.

Lemma zero_denotes_zero : to_SF zero = S754_zero false.
Proof. reflexivity. Qed.

(** [struct.pack('<d', 0.3)] is [33 33 33 33 33 33 d3 3f]. *)
Example pack_d_0_3 :
  pack_d d0_3
  = [Init.Byte.x33; Init.Byte.x33; Init.Byte.x33; Init.Byte.x33;
     Init.Byte.x33; Init.Byte.x33; Init.Byte.xd3; Init.Byte.x3f]
  /\ to_SF d0_3 = S754_finite false 5404319552844595 (-54).
Proof. split; reflexivity. Qed.

(** A packed double, seen as eight explicit bytes. *)
Lemma pack_d_cells (d : binary64) :
  exists b0 b1 b2 b3 b4 b5 b6 b7, pack_d d = [b0; b1; b2; b3; b4; b5; b6; b7].
Proof. unfold pack_d. cbn [le_split]. repeat eexists. Qed.

(** [struct.unpack('<ddd', ...)] of three packed doubles. *)
Lemma unpack_ddd_pack (a b c : binary64) :
  wf a -> wf b -> wf c ->
  unpack_ddd (pack_d a ++ pack_d b ++ pack_d c) = Ret (a, b, c).
Proof.
  intros Ha Hb Hc. unfold unpack_ddd.
  assert (Hcells :
    len (pack_d a ++ pack_d b ++ pack_d c) = 24
    /\ slice (pack_d a ++ pack_d b ++ pack_d c) 0 8 = pack_d a
    /\ slice (pack_d a ++ pack_d b ++ pack_d c) 8 16 = pack_d b
    /\ slice (pack_d a ++ pack_d b ++ pack_d c) 16 24 = pack_d c).
  { destruct (pack_d_cells a) as (a0 & a1 & a2 & a3 & a4 & a5 & a6 & a7 & ->).
    destruct (pack_d_cells b) as (b0 & b1 & b2 & b3 & b4 & b5 & b6 & b7 & ->).
    destruct (pack_d_cells c) as (c0 & c1 & c2 & c3 & c4 & c5 & c6 & c7 & ->).
    repeat split; reflexivity. }
  destruct Hcells as (-> & -> & -> & ->). cbn [Z.eqb Pos.eqb].
  rewrite !le_combine_pack_d, !of_bits_bits_of by assumption. reflexivity.
Qed.

End StructFacts.

(* ===================================================================== *)
(** ** The velocity command codec *)
(* ===================================================================== *)

Section SliceOfSlice.

(** A slice of a slice is a slice of the buffer. *)
Lemma slice_slice (bs : bytes) (a b c d : Z) :
  0 <= a <= b -> b <= len bs -> 0 <= c <= d -> d <= b - a ->
  slice (slice bs a b) c d = slice bs (a + c) (a + d).
Proof.
  intros Hab Hb Hcd Hd.
  destruct (slice_inside bs a b Hab Hb) as [E1 L1].
  destruct (slice_inside (slice bs a b) c d Hcd ltac:(lia)) as [E2 _].
  destruct (slice_inside bs (a + c) (a + d) ltac:(lia) ltac:(lia)) as [E3 _].
  rewrite E2, E3, E1.
  rewrite skipn_firstn_comm, firstn_firstn, skipn_skipn.
  f_equal; [lia | f_equal; lia].
Qed.

End SliceOfSlice.

Section TwistFacts.

Lemma create_twist_body_ok (linear_x angular_z : binary64) :
  create_twist_body linear_x angular_z = Ret (twist_wire linear_x angular_z).
Proof.
  unfold create_twist_body, twist_wire.
  destruct (pack_d_cells linear_x) as (a0 & a1 & a2 & a3 & a4 & a5 & a6 & a7 & Ea).
  destruct (pack_d_cells angular_z) as (c0 & c1 & c2 & c3 & c4 & c5 & c6 & c7 & Ec).
  unfold pack_into_ddd. rewrite Ea, Ec. reflexivity.
Qed.

Lemma create_twist_message_ok (fuel : nat) (linear_x angular_z : binary64) :
  create_twist_message (S fuel) linear_x angular_z
  = Some (Ret (twist_wire linear_x angular_z)).
Proof. cbn [create_twist_message]. rewrite create_twist_body_ok. reflexivity. Qed.

Lemma len_twist_wire (linear_x angular_z : binary64) :
  len (twist_wire linear_x angular_z) = 48.
Proof. unfold twist_wire. rewrite !len_app, !len_pack_d. reflexivity. Qed.

(** The six 8-byte cells of the wire form. *)
Lemma slices_twist_wire (linear_x angular_z : binary64) :
  let buffer := twist_wire linear_x angular_z in
  slice buffer 0 8 = pack_d linear_x
  /\ slice buffer 8 16 = pack_d zero
  /\ slice buffer 16 24 = pack_d zero
  /\ slice buffer 24 32 = pack_d zero
  /\ slice buffer 32 40 = pack_d zero
  /\ slice buffer 40 48 = pack_d angular_z
  /\ buffer = slice buffer 0 24 ++ slice buffer 24 48.
Proof.
  cbv zeta. unfold twist_wire.
  destruct (pack_d_cells linear_x) as (a0 & a1 & a2 & a3 & a4 & a5 & a6 & a7 & ->).
  destruct (pack_d_cells angular_z) as (c0 & c1 & c2 & c3 & c4 & c5 & c6 & c7 & ->).
  repeat split; reflexivity.
Qed.

(** The decoder on a buffer of the right length: six field reads. *)
Lemma parse_twist_message_48 (data : bytes) :
  len data = 48 ->
  parse_twist_message data
  = Ret (Parsed
      {| linear := {| x := of_bits (le_combine (slice data 0 8));
                      y := of_bits (le_combine (slice data 8 16));
                      z := of_bits (le_combine (slice data 16 24)) |};
         angular := {| x := of_bits (le_combine (slice data 24 32));
                       y := of_bits (le_combine (slice data 32 40));
                       z := of_bits (le_combine (slice data 40 48)) |} |}).
Proof.
  intros H. unfold parse_twist_message, parse_twist_body, unpack_ddd.
  rewrite H. cbn [Z.eqb Pos.eqb negb].
  destruct (slice_inside data 0 24 ltac:(lia) ltac:(lia)) as [_ ->].
  destruct (slice_inside data 24 48 ltac:(lia) ltac:(lia)) as [_ ->].
  cbn [Z.sub Z.opp Z.add Z.pos_sub Pos.pred_double Z.succ_double Z.pred_double
       Z.double Z.eqb Pos.eqb bind try_except].
  rewrite !slice_slice by lia. reflexivity.
Qed.

Lemma parse_twist_message_bad_length (data : bytes) :
  len data <> 48 ->
  parse_twist_message data = Ret (MalformedLength (len data)).
Proof.
  intros H. unfold parse_twist_message, parse_twist_body.
  destruct (Z.eqb_spec (len data) 48); [contradiction | reflexivity].
Qed.

End TwistFacts.

(** C7: [create_twist_message] returns exactly 48 bytes, six consecutive
    little-endian 8-byte doubles: linear x, y, z in bytes [0,24) and
    angular x, y, z in bytes [24,48), where linear.y, linear.z, angular.x
    and angular.y are always the encoding of 0.0 (eight zero bytes). *)
Theorem C7_twist_layout (fuel : nat) (linear_x angular_z : binary64) :
  exists buffer,
    create_twist_message (S fuel) linear_x angular_z = Some (Ret buffer)
    /\ len buffer = 48
    /\ slice buffer 0 8 = le_split 8 (bits_of linear_x)
    /\ slice buffer 8 16 = pack_d zero
    /\ slice buffer 16 24 = pack_d zero
    /\ slice buffer 24 32 = pack_d zero
    /\ slice buffer 32 40 = pack_d zero
    /\ slice buffer 40 48 = le_split 8 (bits_of angular_z)
    /\ buffer = slice buffer 0 24 ++ slice buffer 24 48
    /\ pack_d zero = repeat Init.Byte.x00 8.
Proof.
  exists (twist_wire linear_x angular_z).
  split; [apply create_twist_message_ok|].
  split; [apply len_twist_wire|].
  pose proof (slices_twist_wire linear_x angular_z) as S. cbv zeta in S.
  destruct S as (S0 & S1 & S2 & S3 & S4 & S5 & S6).
  repeat split; assumption || reflexivity.
Qed.

(** C1: for finite doubles [linear_x] and [angular_z], decoding the buffer
    made by [create_twist_message] succeeds and gives back linear.x and
    angular.z field for field (sign, exponent and fraction), that is, bit
    for bit. *)
Theorem C1_twist_round_trip (fuel : nat) (linear_x angular_z : binary64) :
  wf linear_x -> wf angular_z ->
  is_finite linear_x = true -> is_finite angular_z = true ->
  exists buffer t,
    create_twist_message (S fuel) linear_x angular_z = Some (Ret buffer)
    /\ parse_twist_message buffer = Ret (Parsed t)
    /\ x (linear t) = linear_x
    /\ z (angular t) = angular_z
    /\ bits_of (x (linear t)) = bits_of linear_x
    /\ bits_of (z (angular t)) = bits_of angular_z
    /\ t = {| linear := mk_Vector3 linear_x zero zero;
              angular := mk_Vector3 zero zero angular_z |}.
Proof.
  intros Hx Hz _ _.
  exists (twist_wire linear_x angular_z).
  exists {| linear := mk_Vector3 linear_x zero zero;
            angular := mk_Vector3 zero zero angular_z |}.
  split; [apply create_twist_message_ok|].
  split; [|repeat split].
  rewrite parse_twist_message_48 by apply len_twist_wire.
  pose proof (slices_twist_wire linear_x angular_z) as S. cbv zeta in S.
  destruct S as (-> & -> & -> & -> & -> & -> & _).
  assert (wf zero) as H0 by (unfold wf; cbn; lia).
  rewrite !le_combine_pack_d, !of_bits_bits_of by assumption.
  reflexivity.
Qed.

Lemma C1_twist_round_trip_witness :
  exists buffer t,
    create_twist_message 1 d0_3 zero = Some (Ret buffer)
    /\ parse_twist_message buffer = Ret (Parsed t)
    /\ x (linear t) = d0_3
    /\ z (angular t) = zero
    /\ bits_of (x (linear t)) = bits_of d0_3
    /\ bits_of (z (angular t)) = bits_of zero
    /\ t = {| linear := mk_Vector3 d0_3 zero zero;
              angular := mk_Vector3 zero zero zero |}.
Proof.
  apply (C1_twist_round_trip 0 d0_3 zero); try reflexivity; unfold wf; cbn; lia.
Defined.

(** C6: [parse_twist_message] reports a malformed length exactly when the
    buffer is not 48 bytes long (so for lengths 0, 1, 47, 49 and 1000),
    with no other error; every 48-byte buffer decodes, as six
    little-endian doubles read at offsets 0, 8, 16, 24, 32 and 40, with no
    check on the values read. *)
Theorem C6_parse_twist_contract (data : bytes) :
  (len data <> 48 ->
     parse_twist_message data = Ret (MalformedLength (len data)))
  /\ (len data = 48 ->
     parse_twist_message data
     = Ret (Parsed
         {| linear := {| x := of_bits (le_combine (slice data 0 8));
                         y := of_bits (le_combine (slice data 8 16));
                         z := of_bits (le_combine (slice data 16 24)) |};
            angular := {| x := of_bits (le_combine (slice data 24 32));
                          y := of_bits (le_combine (slice data 32 40));
                          z := of_bits (le_combine (slice data 40 48)) |} |}))
  /\ ((exists n, parse_twist_message data = Ret (MalformedLength n))
      <-> len data <> 48)
  /\ (In (len data) [0; 1; 47; 49; 1000] ->
      parse_twist_message data = Ret (MalformedLength (len data)))
  /\ (forall e, parse_twist_message data <> Raise e
                /\ parse_twist_message data <> Ret (ParseFailed e)).
Proof.
  destruct (Z.eq_dec (len data) 48) as [E | E].
  - pose proof (parse_twist_message_48 data E) as H.
    split; [intros; contradiction|]. split; [intros _; exact H|].
    split; [|split].
    + split; [intros [n Hn]; congruence | intros; contradiction].
    + rewrite E. cbn [In]. intros Hin. exfalso. lia.
    + intros e. rewrite H. split; discriminate.
  - pose proof (parse_twist_message_bad_length data E) as H.
    split; [intros _; exact H|]. split; [intros; contradiction|].
    split; [|split].
    + split; [intros _; exact E | intros _; eexists; exact H].
    + intros _. exact H.
    + intros e. rewrite H. split; discriminate.
Qed.

Lemma C6_parse_twist_contract_witness :
  len nan_inf_wire = 48
  /\ parse_twist_message nan_inf_wire
     = Ret (Parsed {| linear := mk_Vector3 qnan pos_inf neg_inf;
                      angular := mk_Vector3 d0_3 zero qnan |})
  /\ is_nan qnan = true /\ is_inf pos_inf = true /\ is_inf neg_inf = true.
Proof.
  split; [reflexivity|]. split; [|repeat split].
  exact (proj1 (proj2 (C6_parse_twist_contract nan_inf_wire)) eq_refl).
Defined.

(* ===================================================================== *)
(** ** The frame decoder: reconciliation of the resolution *)
(* ===================================================================== *)

Section ReconcileFacts.

(** The loop leaves by [break] at the first candidate, in table order,
    that passes the test. *)
Lemma match_resolution_first (resolutions : list (Z * Z)) (size w h : Z) :
  match_resolution resolutions size = Some (w, h) <->
  exists before after,
    resolutions = before ++ (w, h) :: after
    /\ within_tolerance size (w, h) = true
    /\ Forall (fun c => within_tolerance size c = false) before.
Proof.
  induction resolutions as [|[w' h'] rest IH]; cbn [match_resolution].
  - split; [discriminate | intros ([|? ?] & after & E & _); discriminate].
  - destruct (Z.abs (w' * h' * 3 - size) <? 100) eqn:T.
    + split.
      * intros E. injection E as -> ->. exists [], rest.
        split; [reflexivity | split; [exact T | constructor]].
      * intros ([|c before] & after & E & Hin & Hall).
        -- cbn in E. injection E as -> -> _. reflexivity.
        -- cbn in E. injection E as <- _. inversion Hall as [|? ? Hc _]; subst.
           unfold within_tolerance in Hc. cbn [fst snd] in Hc. congruence.
    + rewrite IH. split.
      * intros (before & after & -> & Hin & Hall).
        exists ((w', h') :: before), after.
        split; [reflexivity | split; [exact Hin | constructor; assumption]].
      * intros ([|c before] & after & E & Hin & Hall).
        -- cbn in E. injection E as -> -> _.
           unfold within_tolerance in Hin. cbn [fst snd] in Hin. congruence.
        -- cbn in E. injection E as <- ->. inversion Hall; subst.
           exists before, after. auto.
Qed.

(** The loop runs to its [else] exactly when no candidate passes. *)
Lemma match_resolution_none (resolutions : list (Z * Z)) (size : Z) :
  match_resolution resolutions size = None <->
  Forall (fun c => within_tolerance size c = false) resolutions.
Proof.
  induction resolutions as [|[w' h'] rest IH]; cbn [match_resolution].
  - split; [constructor | reflexivity].
  - destruct (Z.abs (w' * h' * 3 - size) <? 100) eqn:T.
    + split; [discriminate|]. intros H. inversion H as [|? ? Hc _]; subst.
      unfold within_tolerance in Hc. cbn [fst snd] in Hc. congruence.
    + rewrite IH. split.
      * intros H. constructor; assumption.
      * intros H. inversion H; assumption.
Qed.

Lemma match_resolution_in (resolutions : list (Z * Z)) (size w h : Z) :
  match_resolution resolutions size = Some (w, h) ->
  In (w, h) resolutions /\ Z.abs (w * h * 3 - size) < 100.
Proof.
  intros H. apply match_resolution_first in H.
  destruct H as (before & after & -> & Hin & _). split.
  - apply in_or_app. right. left. reflexivity.
  - unfold within_tolerance in Hin. cbn [fst snd] in Hin. apply Z.ltb_lt, Hin.
Qed.

(** A table match is a positive resolution whose size is less than 100
    bytes away from the payload size. *)
Lemma match_common_resolution (size w h : Z) :
  match_resolution common_resolutions size = Some (w, h) ->
  0 < w /\ 0 < h /\ Z.abs (w * h * 3 - size) < 100.
Proof.
  intros H. apply match_resolution_in in H. destruct H as [Hin Htol].
  assert (0 < w /\ 0 < h) as [Hw Hh].
  { unfold common_resolutions in Hin. cbn [In] in Hin.
    repeat (destruct Hin as [Hin | Hin]; [injection Hin as <- <-; lia|]).
    contradiction. }
  auto.
Qed.

(** No payload shorter than 921501 bytes matches the table. *)
Lemma match_common_resolution_small (size : Z) :
  size <= 640 * 480 * 3 - 100 ->
  match_resolution common_resolutions size = None.
Proof.
  intros H. apply match_resolution_none. unfold common_resolutions.
  repeat constructor; unfold within_tolerance; cbn [fst snd]; apply Z.ltb_ge; lia.
Qed.

(** [int_sqrt] against the double-precision computation: the two agree
    on every pixel count up to 4095, on 301 * 173, and on the pixel counts
    of the table. *)
Lemma int_sqrt_agrees_small (n : Z) :
  0 <= n < 4096 -> binary64_sqrt_floor n = Some (Z.sqrt n).
Proof.
  intros Hn.
  assert (A : forallb sqrt_agrees (map Z.of_nat (seq 0 4096)) = true)
    by (vm_compute; reflexivity).
  rewrite forallb_forall in A.
  specialize (A n). unfold sqrt_agrees in A.
  destruct (binary64_sqrt_floor n) as [r|].
  - f_equal. apply Z.eqb_eq, A.
    apply in_map_iff. exists (Z.to_nat n). split; [lia|].
    apply in_seq. lia.
  - exfalso. assert (false = true) as F; [|discriminate F].
    apply A. apply in_map_iff. exists (Z.to_nat n). split; [lia|].
    apply in_seq. lia.
Qed.

Example int_sqrt_agrees_301x173 : binary64_sqrt_floor (301 * 173) = Some 228.
Proof. vm_compute. reflexivity. Qed.

Example int_sqrt_agrees_table :
  forallb (fun wh => sqrt_agrees (fst wh * snd wh)) common_resolutions = true.
Proof. vm_compute. reflexivity. Qed.

(** The fallback, case by case on the payload size. *)
Lemma fallback_resolution_cases (size : Z) :
  fallback_resolution size =
    if size <? 0 then Raise TypeError
    else if size <? 3 then Raise ZeroDivisionError
    else Ret (Z.sqrt (size / 3), (size / 3) / Z.sqrt (size / 3)).
Proof.
  unfold fallback_resolution, int_sqrt, floordiv.
  destruct (Z.ltb_spec size 0) as [Hneg | Hnn].
  - destruct (Z.ltb_spec (size / 3) 0) as [_ | H]; [reflexivity|].
    exfalso. Z.div_mod_to_equations. lia.
  - destruct (Z.ltb_spec (size / 3) 0) as [H | _];
      [exfalso; Z.div_mod_to_equations; lia|].
    cbn [bind].
    destruct (Z.ltb_spec size 3) as [Hlt | Hge].
    + replace (size / 3) with 0 by (Z.div_mod_to_equations; lia).
      reflexivity.
    + assert (1 <= size / 3) as Hp by (Z.div_mod_to_equations; lia).
      assert (1 <= Z.sqrt (size / 3)) as Hs.
      { change 1 with (Z.sqrt 1) at 1. apply Z.sqrt_le_mono. exact Hp. }
      destruct (Z.eqb_spec (Z.sqrt (size / 3)) 0); [lia | reflexivity].
Qed.

(** The fallback resolution is positive and fits in the payload. *)
Lemma fallback_fits (size : Z) :
  3 <= size ->
  let w := Z.sqrt (size / 3) in
  let h := (size / 3) / w in
  0 < w /\ 0 < h /\ h * w * 3 <= size.
Proof.
  intros Hge w h.
  assert (1 <= size / 3) as Hp by (Z.div_mod_to_equations; lia).
  assert (1 <= w) as Hw.
  { subst w. change 1 with (Z.sqrt 1) at 1. apply Z.sqrt_le_mono. exact Hp. }
  assert (w * w <= size / 3) as Hsq.
  { subst w. destruct (Z.sqrt_spec (size / 3)) as [H _]; [lia | exact H]. }
  assert (w <= h) as Hh.
  { subst h. apply Z.div_le_lower_bound; lia. }
  assert (h * w <= size / 3) as Hhw.
  { subst h. rewrite Z.mul_comm. apply Z.mul_div_le. lia. }
  repeat split; try lia.
  assert (3 * (size / 3) <= size) by (apply Z.mul_div_le; lia). lia.
Qed.

(** Whatever the path, a reconciled resolution is positive, and its
    frame is at most 99 bytes larger than the payload. *)
Lemma reconcile_positive (size w h : Z) :
  reconcile size = Ret (w, h) ->
  0 < w /\ 0 < h /\ h * w * 3 < size + 100.
Proof.
  unfold reconcile.
  destruct (match_resolution common_resolutions size) as [[w' h']|] eqn:M.
  - intros E. injection E as <- <-.
    destruct (match_common_resolution _ _ _ M) as (Hw & Hh & Htol). lia.
  - rewrite fallback_resolution_cases.
    destruct (size <? 0); [discriminate|].
    destruct (Z.ltb_spec size 3); [discriminate|].
    intros E. injection E as <- <-.
    destruct (fallback_fits size ltac:(lia)) as (Hw & Hh & Hfit). lia.
Qed.

End ReconcileFacts.

(* ===================================================================== *)
(** ** The frame decoder: from the header to the pixels *)
(* ===================================================================== *)

Section DecodeFacts.

Lemma swap_rb_length_le (n : nat) (px : bytes) :
  (List.length px <= n)%nat -> List.length (swap_rb px) = List.length px.
Proof.
  revert px. induction n as [|n IH]; intros px Hn.
  - destruct px; [reflexivity | cbn in Hn; lia].
  - destruct px as [|r [|g [|b rest]]]; try reflexivity.
    cbn [swap_rb List.length] in *. rewrite IH by lia. reflexivity.
Qed.

Lemma len_swap_rb (px : bytes) : len (swap_rb px) = len px.
Proof. unfold len. rewrite (swap_rb_length_le (List.length px)); auto. Qed.

(** Swapping twice restores the pixels. *)
Lemma swap_rb_involutive_le (n : nat) (px : bytes) :
  (List.length px <= n)%nat -> swap_rb (swap_rb px) = px.
Proof.
  revert px. induction n as [|n IH]; intros px Hn.
  - destruct px; [reflexivity | cbn in Hn; lia].
  - destruct px as [|r [|g [|b rest]]]; try reflexivity.
    cbn [swap_rb List.length] in *. rewrite IH by lia. reflexivity.
Qed.

(** When the header is read, the decoder goes on to the pixels, with the
    encoding marker at its first occurrence. *)
Lemma body_of_header (payload h0 w0 p : _) :
  header_of payload = Some (h0, w0, p) ->
  parse_ros2_image_body payload = decode_pixels payload p h0 w0
  /\ find payload (lit "rgb8") = p
  /\ 0 <= p
  /\ occurs_at (lit "rgb8") payload p
  /\ (forall j, 0 <= j < p -> ~ occurs_at (lit "rgb8") payload j)
  /\ contains payload (lit "camera")
  /\ p + 4 <= len payload.
Proof.
  unfold header_of, parse_ros2_image_body.
  destruct (Z.eqb_spec (find payload (lit "camera")) (-1)) as [|Hc];
    cbn [orb]; [discriminate|].
  destruct (find payload (lit "camera") - 4 <? 0); [discriminate|].
  destruct (unpack_I _) as [flen|]; [|discriminate]. cbn [bind].
  destruct (unpack_I _) as [h|]; [|discriminate]. cbn [bind].
  destruct (unpack_I _) as [w|]; [|discriminate]. cbn [bind].
  destruct (Z.eqb_spec (find payload (lit "rgb8")) (-1)) as [|Hr]; [discriminate|].
  intros E. injection E as -> -> <-.
  destruct (find_hit payload (lit "rgb8") _ eq_refl Hr) as (Hp & Hocc & Hmin).
  split; [reflexivity|]. split; [reflexivity|]. split; [exact Hp|].
  split; [exact Hocc|]. split; [exact Hmin|]. split.
  - destruct (find_hit payload (lit "camera") _ eq_refl Hc)
      as (_ & (pre & post & E & _) & _).
    exists pre, post. exact E.
  - apply occurs_at_bound in Hocc. change (len (lit "rgb8")) with 4 in Hocc. lia.
Qed.

(** Lines 89-109 once the resolution is settled: the payload is cut to
    the frame size, and a short payload makes [reshape] raise. *)
Lemma decode_pixels_cases (payload : bytes) (p h0 w0 : Z) :
  0 <= p ->
  decode_pixels payload p h0 w0 =
    match reconcile (len payload - header_size p) with
    | Raise e => Raise e
    | Ret (w, h) =>
        let image_data := slice_from payload (header_size p) in
        if len image_data <? h * w * 3 then Raise ValueError
        else Ret (Frame {| height := h; width := w;
                           pixels := swap_rb (firstn (Z.to_nat (h * w * 3))
                                                     image_data) |})
    end.
Proof.
  intros Hp. unfold decode_pixels.
  destruct (reconcile (len payload - header_size p)) as [[w h]|e] eqn:R;
    cbn [bind]; [|reflexivity].
  destruct (reconcile_positive _ _ _ R) as (Hw & Hh & Hfit).
  fold (header_size p). cbv zeta.
  set (image_data := slice_from payload (header_size p)).
  assert (0 < h * w * 3) as Hpos by nia.
  pose proof (len_nonneg image_data) as Hnn.
  unfold reshape, cvtColor_RGB2BGR.
  destruct (Z.ltb_spec (len image_data) (h * w * 3)) as [Hshort | Hlong].
  - destruct (Z.gtb_spec (len image_data) (h * w * 3)); [lia|].
    destruct (Z.eqb_spec (len image_data) (h * w * 3)); [lia|].
    rewrite andb_false_r. reflexivity.
  - assert (E : (if len image_data >? h * w * 3
                 then slice_to image_data (h * w * 3) else image_data)
                = firstn (Z.to_nat (h * w * 3)) image_data).
    { destruct (Z.gtb_spec (len image_data) (h * w * 3)).
      - apply slice_to_inside. lia.
      - symmetry. apply firstn_all2. unfold len in *. lia. }
    rewrite E.
    assert (L : len (firstn (Z.to_nat (h * w * 3)) image_data) = h * w * 3).
    { unfold len in *. rewrite length_firstn. lia. }
    rewrite L, Z.eqb_refl.
    destruct (Z.leb_spec 0 h); [|lia]. destruct (Z.leb_spec 0 w); [|lia].
    cbn [andb bind pixels height width]. rewrite L.
    destruct (Z.eqb_spec (h * w * 3) 0); [lia | reflexivity].
Qed.

(** The whole decoder, once the header is read. *)
Lemma parse_of_header (payload : bytes) (h0 w0 p : Z) :
  header_of payload = Some (h0, w0, p) ->
  parse_ros2_image payload =
    match reconcile (len payload - header_size p) with
    | Raise e => Ret (DecodeFailed e)
    | Ret (w, h) =>
        let image_data := slice_from payload (header_size p) in
        if len image_data <? h * w * 3 then Ret (DecodeFailed ValueError)
        else Ret (Frame {| height := h; width := w;
                           pixels := swap_rb (firstn (Z.to_nat (h * w * 3))
                                                     image_data) |})
    end.
Proof.
  intros H. destruct (body_of_header _ _ _ _ H) as (Hb & _ & Hp & _).
  unfold parse_ros2_image. rewrite Hb, decode_pixels_cases by exact Hp.
  destruct (reconcile _) as [[w h]|e]; cbn [try_except]; [|reflexivity].
  cbv zeta. destruct (_ <? _); reflexivity.
Qed.

(** A frame is only ever returned through the header. *)
Lemma frame_has_header (payload : bytes) (f : DecodedFrame) :
  parse_ros2_image payload = Ret (Frame f) ->
  exists h0 w0 p, header_of payload = Some (h0, w0, p).
Proof.
  unfold parse_ros2_image, parse_ros2_image_body, header_of.
  destruct (find payload (lit "camera") =? -1); cbn [orb try_except];
    [discriminate|].
  destruct (find payload (lit "camera") - 4 <? 0); [discriminate|].
  destruct (unpack_I _) as [flen|]; [|discriminate]. cbn [bind].
  destruct (unpack_I _) as [h|]; [|discriminate]. cbn [bind].
  destruct (unpack_I _) as [w|]; [|discriminate]. cbn [bind].
  destruct (find payload (lit "rgb8") =? -1); [discriminate|].
  intros _. eauto.
Qed.

(** Each exception of the [try] block does occur. *)
Example body_raises_struct_error :
  parse_ros2_image_body (lit "xxxxcamera") = Raise StructError.
Proof. reflexivity. Qed.

Example body_raises_type_error :
  parse_ros2_image_body (u32 0 ++ lit "camerargb8") = Raise TypeError.
Proof. reflexivity. Qed.

Example body_raises_zero_division :
  parse_ros2_image_body frame_2_bytes = Raise ZeroDivisionError.
Proof. reflexivity. Qed.

Example body_raises_value_error :
  parse_ros2_image_body frame_640x480_short = Raise ValueError.
Proof. vm_compute. reflexivity. Qed.

Example body_early_returns :
  parse_ros2_image_body (lit "camera") = Ret InvalidOffset
  /\ parse_ros2_image_body (u32 0 ++ lit "camera" ++ u32 1 ++ u32 1)
     = Ret (MarkerNotFound encoding).
Proof. split; reflexivity. Qed.

End DecodeFacts.

(* ===================================================================== *)
(** ** The frame decoder: the contract *)
(* ===================================================================== *)

(** C8: a buffer without the substring "camera" is rejected with the
    missing-marker report for the frame identifier; the search is the first
    step, the [try] block raises nothing, and the report is given for such
    buffers only. *)
Theorem C8_missing_camera_marker (payload : bytes) :
  ~ contains payload (lit "camera") ->
  parse_ros2_image payload = Ret (MarkerNotFound frame_id)
  /\ parse_ros2_image_body payload = Ret (MarkerNotFound frame_id)
  /\ raises (parse_ros2_image_body payload) = false
  /\ forall payload',
       parse_ros2_image payload' = Ret (MarkerNotFound frame_id) ->
       ~ contains payload' (lit "camera").
Proof.
  intros Hno. apply find_miss_iff in Hno.
  assert (B : parse_ros2_image_body payload = Ret (MarkerNotFound frame_id)).
  { unfold parse_ros2_image_body. rewrite Hno. reflexivity. }
  unfold parse_ros2_image. rewrite B. repeat split.
  intros payload'. unfold parse_ros2_image_body.
  destruct (Z.eqb_spec (find payload' (lit "camera")) (-1)) as [E | E].
  - intros _. apply find_miss_iff, E.
  - destruct (find payload' (lit "camera") - 4 <? 0);
      [cbn [try_except]; discriminate|].
    destruct (unpack_I _) as [flen|]; cbn [bind try_except]; [|discriminate].
    destruct (unpack_I _) as [h|]; cbn [bind try_except]; [|discriminate].
    destruct (unpack_I _) as [w|]; cbn [bind try_except]; [|discriminate].
    destruct (Z.eqb_spec (find payload' (lit "rgb8")) (-1)) as [Hm | Hm];
      [cbn [try_except]; discriminate|].
    pose proof (find_from_cases (lit "rgb8") payload' 0) as Hp.
    fold (find payload' (lit "rgb8")) in Hp.
    rewrite decode_pixels_cases by lia.
    destruct (reconcile _) as [[w' h']|e]; [|cbn [try_except]; discriminate].
    cbv zeta. destruct (_ <? _); cbn [try_except]; discriminate.
Qed.

Lemma C8_missing_camera_marker_witness :
  parse_ros2_image (lit "an rgb8 buffer from another sensor")
  = Ret (MarkerNotFound frame_id).
Proof.
  apply (C8_missing_camera_marker (lit "an rgb8 buffer from another sensor")).
  apply find_miss_iff. reflexivity.
Defined.

(** C9: on every payload [parse_ros2_image] returns, a frame or [None];
    nothing propagates, since whatever the [try] block raises is turned
    into the [None] report by the handler. *)
Theorem C9_no_exception_escapes (payload : bytes) :
  (exists r, parse_ros2_image payload = Ret r
             /\ (returned r = None \/ exists f, returned r = Some f))
  /\ (forall e, parse_ros2_image payload <> Raise e)
  /\ (forall e, parse_ros2_image_body payload = Raise e ->
                parse_ros2_image payload = Ret (DecodeFailed e)
                /\ returned (DecodeFailed e) = None).
Proof.
  unfold parse_ros2_image.
  destruct (parse_ros2_image_body payload) as [r|e0]; cbn [try_except].
  - split; [|split].
    + exists r. split; [reflexivity|].
      destruct r; cbn [returned]; eauto.
    + discriminate.
    + discriminate.
  - split; [|split].
    + eexists. split; [reflexivity | left; reflexivity].
    + discriminate.
    + intros e E. injection E as ->. split; reflexivity.
Qed.

(** The dimension fields lie beyond the end of this buffer: the identifier
    length read before "camera" is 0x78787878. *)
Lemma C9_no_exception_escapes_witness :
  parse_ros2_image_body (lit "xxxxcamera rgb8 ............") = Raise StructError
  /\ parse_ros2_image (lit "xxxxcamera rgb8 ............")
     = Ret (DecodeFailed StructError).
Proof.
  split; [reflexivity|].
  apply (proj2 (proj2 (C9_no_exception_escapes
                         (lit "xxxxcamera rgb8 ............")))).
  reflexivity.
Defined.

(** C2, as the code has it: the encoding tag is counted as 5 bytes, the
    four characters "rgb8" and one terminator.  With the marker first
    found at [p], the header ends at [p + 4 + 1 + 1 + 4 = p + 10], the
    payload is what follows the six bytes after the tag, to the end of the
    buffer, and the payload size is [len - (p + 10)]. *)
Theorem C2_payload_offset (payload : bytes) (h0 w0 p : Z) :
  header_of payload = Some (h0, w0, p) ->
  exists pre tail,
    payload = pre ++ lit "rgb8" ++ tail
    /\ len pre = p
    /\ (forall j, 0 <= j < p -> ~ occurs_at (lit "rgb8") payload j)
    /\ header_size p = p + len (lit "rgb8") + 1 + 1 + 4
    /\ slice_from payload (header_size p) = skipn 6 tail
    /\ len payload - header_size p = len tail - 6
    /\ parse_ros2_image payload =
         match reconcile (len tail - 6) with
         | Raise e => Ret (DecodeFailed e)
         | Ret (w, h) =>
             if len (skipn 6 tail) <? h * w * 3 then Ret (DecodeFailed ValueError)
             else Ret (Frame {| height := h; width := w;
                                pixels := swap_rb (firstn (Z.to_nat (h * w * 3))
                                                          (skipn 6 tail)) |})
         end.
Proof.
  intros H. pose proof (parse_of_header _ _ _ _ H) as P.
  destruct (body_of_header _ _ _ _ H)
    as (_ & _ & Hp & (pre & tail & E & L) & Hmin & _).
  exists pre, tail.
  assert (S : slice_from payload (header_size p) = skipn 6 tail).
  { rewrite E. unfold header_size. rewrite <- L.
    replace (len pre + 5 + 1 + 4) with (len pre + 10) by lia.
    rewrite slice_from_app_skip by lia.
    change 10 with (len (lit "rgb8") + 6).
    rewrite slice_from_app_skip by lia.
    unfold slice_from, adjust. pose proof (len_nonneg tail).
    destruct (Z.ltb_spec 6 0); [lia|].
    destruct (Z.le_gt_cases 6 (len tail)).
    - rewrite Z.min_l by lia. reflexivity.
    - rewrite Z.min_r by lia.
      rewrite !skipn_all2 by (unfold len in *; lia). reflexivity. }
  assert (Z : len payload - header_size p = len tail - 6).
  { rewrite E, !len_app. unfold header_size. change (len (lit "rgb8")) with 4. lia. }
  repeat split; try assumption.
  - unfold header_size. change (len (lit "rgb8")) with 4. lia.
  - rewrite P, Z, S. reflexivity.
Qed.

Lemma C2_payload_offset_witness :
  exists pre tail,
    frame_1x1 = pre ++ lit "rgb8" ++ tail
    /\ len pre = 23
    /\ (forall j, 0 <= j < 23 -> ~ occurs_at (lit "rgb8") frame_1x1 j)
    /\ header_size 23 = 23 + len (lit "rgb8") + 1 + 1 + 4
    /\ slice_from frame_1x1 (header_size 23) = skipn 6 tail
    /\ len frame_1x1 - header_size 23 = len tail - 6
    /\ parse_ros2_image frame_1x1 =
         match reconcile (len tail - 6) with
         | Raise e => Ret (DecodeFailed e)
         | Ret (w, h) =>
             if len (skipn 6 tail) <? h * w * 3 then Ret (DecodeFailed ValueError)
             else Ret (Frame {| height := h; width := w;
                                pixels := swap_rb (firstn (Z.to_nat (h * w * 3))
                                                          (skipn 6 tail)) |})
         end.
Proof.
  apply (C2_payload_offset frame_1x1 1 1 23). reflexivity.
Defined.

(** The payload does not begin 4 + 1 + 4 bytes after the marker: in this
    frame the marker is at 23, the header is 33 bytes long, and the three
    pixel bytes returned are those at offsets 33, 34 and 35. *)
Lemma C2_counterexample :
  find frame_1x1 (lit "rgb8") = 23
  /\ header_of frame_1x1 = Some (1, 1, 23)
  /\ header_size 23 <> 23 + len (lit "rgb8") + 1 + 4
  /\ len frame_1x1 - header_size 23
     <> len frame_1x1 - (23 + len (lit "rgb8") + 1 + 4)
  /\ slice_from frame_1x1 (header_size 23)
     <> slice_from frame_1x1 (23 + len (lit "rgb8") + 1 + 4)
  /\ parse_ros2_image frame_1x1
     = Ret (Frame {| height := 1; width := 1;
                     pixels := [Init.Byte.x03; Init.Byte.x02; Init.Byte.x01] |})
  /\ parse_ros2_image frame_1x1
     <> Ret (Frame {| height := 1; width := 1;
                      pixels := swap_rb (firstn 3 (slice_from frame_1x1
                                  (23 + len (lit "rgb8") + 1 + 4))) |}).
Proof.
  repeat split; try reflexivity; vm_compute; discriminate.
Qed.

(** C3: the candidates are tried in the fixed table order and the first
    one whose frame size is less than 100 bytes from the payload size is
    adopted; a frame whose payload is exactly 640*480*3 bytes decodes as
    640 by 480 whatever its dimension fields [h0], [w0] say. *)
Theorem C3_resolution_table (payload : bytes) (h0 w0 p : Z) :
  header_of payload = Some (h0, w0, p) ->
  let size := len payload - header_size p in
  common_resolutions
  = [ (640, 480); (800, 600); (1024, 768); (1280, 720); (1280, 960);
      (1920, 1080); (1280, 1024); (1600, 1200) ]
  /\ (forall w h,
        match_resolution common_resolutions size = Some (w, h) <->
        exists before after,
          common_resolutions = before ++ (w, h) :: after
          /\ Z.abs (w * h * 3 - size) < 100
          /\ Forall (fun c => ~ Z.abs (fst c * snd c * 3 - size) < 100) before)
  /\ (forall w h,
        match_resolution common_resolutions size = Some (w, h) ->
        reconcile size = Ret (w, h)
        /\ forall f, parse_ros2_image payload = Ret (Frame f) ->
                     width f = w /\ height f = h)
  /\ (size = 640 * 480 * 3 ->
      parse_ros2_image payload
      = Ret (Frame {| height := 480; width := 640;
                      pixels := swap_rb (slice_from payload (header_size p)) |})).
Proof.
  intros H size. pose proof (parse_of_header _ _ _ _ H) as P. fold size in P.
  destruct (body_of_header _ _ _ _ H) as (_ & _ & Hp & _).
  split; [reflexivity|]. split; [|split].
  - intros w h. rewrite match_resolution_first. unfold within_tolerance.
    cbn [fst snd].
    split; intros (before & after & E & T & F); exists before, after;
      (split; [exact E | split; [apply Z.ltb_lt; exact T|]]);
      eapply Forall_impl; try exact F; intros c Hc; cbv beta in *.
    + apply Z.ltb_ge in Hc. lia.
    + apply Z.ltb_ge. lia.
  - intros w h M. unfold reconcile in *. rewrite M in *. split; [reflexivity|].
    intros f. rewrite P. cbv zeta.
    destruct (_ <? _); [discriminate|]. intros E. injection E as <-.
    split; reflexivity.
  - intros S. rewrite P, S. change (reconcile (640 * 480 * 3)) with (@Ret (Z * Z) (640, 480)).
    cbv zeta.
    assert (L : len (slice_from payload (header_size p)) = 480 * 640 * 3).
    { rewrite len_slice_from by (unfold header_size; lia). fold size. lia. }
    rewrite L, Z.ltb_irrefl.
    rewrite firstn_all2 by (unfold len in L; lia). reflexivity.
Qed.

Lemma C3_resolution_table_witness :
  parse_ros2_image frame_640x480
  = Ret (Frame {| height := 480; width := 640;
                  pixels := swap_rb (slice_from frame_640x480 (header_size 23)) |}).
Proof.
  assert (H : header_of frame_640x480 = Some (7, 9, 23)) by (vm_compute; reflexivity).
  apply (proj2 (proj2 (proj2 (C3_resolution_table frame_640x480 7 9 23 H)))).
  vm_compute. reflexivity.
Defined.



(** C5: a returned frame holds exactly [width * height * 3] pixel bytes;
    a longer payload is cut to that length and its tail dropped, and a
    payload shorter than the reconciled frame makes the decode fail
    instead of returning part of a frame. *)
Theorem C5_pixel_slice_exact (payload : bytes) (h0 w0 p w h : Z) :
  header_of payload = Some (h0, w0, p) ->
  reconcile (len payload - header_size p) = Ret (w, h) ->
  let image_data := slice_from payload (header_size p) in
  let n := w * h * 3 in
  (len image_data < n ->
     parse_ros2_image payload = Ret (DecodeFailed ValueError))
  /\ (n <= len image_data ->
     exists f, parse_ros2_image payload = Ret (Frame f)
               /\ width f = w /\ height f = h
               /\ len (pixels f) = n
               /\ pixels f = swap_rb (firstn (Z.to_nat n) image_data)
               /\ image_data = firstn (Z.to_nat n) image_data
                                 ++ skipn (Z.to_nat n) image_data
               /\ len (skipn (Z.to_nat n) image_data) = len image_data - n)
  /\ (forall payload' f,
        parse_ros2_image payload' = Ret (Frame f) ->
        len (pixels f) = width f * height f * 3).
Proof.
  intros H R image_data n.
  assert (General : forall payload' f,
             parse_ros2_image payload' = Ret (Frame f) ->
             len (pixels f) = width f * height f * 3).
  { intros payload' f E.
    destruct (frame_has_header _ _ E) as (h1 & w1 & p1 & H1).
    rewrite (parse_of_header _ _ _ _ H1) in E.
    destruct (reconcile (len payload' - header_size p1)) as [[w' h']|e] eqn:R';
      cbv beta iota zeta in E; [|discriminate E].
    destruct (Z.ltb_spec (len (slice_from payload' (header_size p1))) (h' * w' * 3));
      [discriminate E|].
    injection E as <-. cbn [pixels width height].
    destruct (reconcile_positive _ _ _ R') as (Hw & Hh & _).
    rewrite len_swap_rb. unfold len in *. rewrite length_firstn. nia. }
  pose proof (parse_of_header _ _ _ _ H) as P. rewrite R in P. cbv zeta in P.
  fold image_data in P. replace (h * w * 3) with n in P by (subst n; lia).
  destruct (reconcile_positive _ _ _ R) as (Hw & Hh & _).
  assert (0 < n) as Hn by (subst n; nia).
  split; [|split; [|exact General]].
  - intros Hshort. rewrite P.
    destruct (Z.ltb_spec (len image_data) n); [reflexivity | lia].
  - intros Hlong. rewrite P.
    destruct (Z.ltb_spec (len image_data) n); [lia|].
    eexists. split; [reflexivity|]. cbn [pixels width height].
    split; [reflexivity|]. split; [reflexivity|].
    split; [|split; [reflexivity|split]].
    + rewrite len_swap_rb. unfold len in *. rewrite length_firstn. lia.
    + symmetry. apply firstn_skipn.
    + unfold len in *. rewrite length_skipn. lia.
Qed.

Lemma C5_pixel_slice_exact_witness :
  exists f, parse_ros2_image frame_640x480_padded = Ret (Frame f)
            /\ width f = 640 /\ height f = 480
            /\ len (pixels f) = 640 * 480 * 3
            /\ len (slice_from frame_640x480_padded (header_size 23))
               = 640 * 480 * 3 + 50.
Proof.
  assert (H : header_of frame_640x480_padded = Some (480, 640, 23))
    by (vm_compute; reflexivity).
  assert (R : reconcile (len frame_640x480_padded - header_size 23)
              = Ret (640, 480)) by (vm_compute; reflexivity).
  assert (L : len (slice_from frame_640x480_padded (header_size 23))
              = 640 * 480 * 3 + 50) by (vm_compute; reflexivity).
  destruct (C5_pixel_slice_exact frame_640x480_padded 480 640 23 640 480 H R)
    as (_ & Hlong & _).
  destruct Hlong as (f & E & Ew & Eh & El & _).
  - rewrite L. vm_compute. discriminate.
  - exists f. split; [exact E|]. split; [exact Ew|]. split; [exact Eh|].
    split; [exact El | exact L].
Defined.

(** C10, as the code has it: a payload of fewer than 3 bytes matches no
    candidate and makes the decode fail.  When the computed payload size
    is 0, 1 or 2 the pixel count is 0, the fallback width is 0 and the
    division by it raises; when the header runs past the end of the buffer
    the computed size and the pixel count are negative and [int] of the
    complex root raises instead.  No frame of width 0 or height 0 is ever
    returned. *)
Theorem C10_no_empty_frame (payload : bytes) (h0 w0 p : Z) :
  header_of payload = Some (h0, w0, p) ->
  len (slice_from payload (header_size p)) < 3 ->
  let size := len payload - header_size p in
  match_resolution common_resolutions size = None
  /\ (exists e, parse_ros2_image payload = Ret (DecodeFailed e)
                /\ returned (DecodeFailed e) = None)
  /\ (0 <= size ->
      size / 3 = 0
      /\ int_sqrt (size / 3) = Ret 0
      /\ floordiv (size / 3) 0 = Raise ZeroDivisionError
      /\ parse_ros2_image payload = Ret (DecodeFailed ZeroDivisionError))
  /\ (size < 0 ->
      size / 3 < 0
      /\ int_sqrt (size / 3) = Raise TypeError
      /\ parse_ros2_image payload = Ret (DecodeFailed TypeError))
  /\ (forall payload' f,
        parse_ros2_image payload' = Ret (Frame f) ->
        0 < width f /\ 0 < height f).
Proof.
  intros H Hshort size.
  destruct (body_of_header _ _ _ _ H) as (_ & _ & Hp & _).
  rewrite len_slice_from in Hshort by (unfold header_size; lia). fold size in Hshort.
  assert (Hsz : size < 3) by lia.
  assert (M : match_resolution common_resolutions size = None)
    by (apply match_common_resolution_small; lia).
  pose proof (parse_of_header _ _ _ _ H) as P. fold size in P.
  unfold reconcile in P. rewrite M, fallback_resolution_cases in P.
  split; [exact M|]. split; [|split; [|split]].
  - rewrite P. destruct (size <? 0); [eexists; split; reflexivity|].
    destruct (Z.ltb_spec size 3); [eexists; split; reflexivity | lia].
  - intros Hnn.
    assert (Z0 : size / 3 = 0) by (Z.div_mod_to_equations; lia).
    rewrite Z0. repeat split.
    rewrite P. destruct (Z.ltb_spec size 0); [lia|].
    destruct (Z.ltb_spec size 3); [reflexivity | lia].
  - intros Hneg.
    assert (Zn : size / 3 < 0) by (Z.div_mod_to_equations; lia).
    split; [exact Zn|]. split.
    + unfold int_sqrt. destruct (Z.ltb_spec (size / 3) 0); [reflexivity | lia].
    + rewrite P. destruct (Z.ltb_spec size 0); [reflexivity | lia].
  - intros payload' f E.
    destruct (frame_has_header _ _ E) as (h1 & w1 & p1 & H1).
    rewrite (parse_of_header _ _ _ _ H1) in E.
    destruct (reconcile (len payload' - header_size p1)) as [[w' h']|e] eqn:R';
      cbv beta iota zeta in E; [|discriminate E].
    destruct (len (slice_from payload' (header_size p1)) <? h' * w' * 3);
      [discriminate E|].
    injection E as <-. cbn [width height].
    destruct (reconcile_positive _ _ _ R') as (Hw & Hh & _). auto.
Qed.

Lemma C10_no_empty_frame_witness :
  parse_ros2_image frame_2_bytes = Ret (DecodeFailed ZeroDivisionError)
  /\ len (slice_from frame_2_bytes (header_size 23)) = 2.
Proof.
  assert (H : header_of frame_2_bytes = Some (1, 1, 23)) by reflexivity.
  assert (L : len (slice_from frame_2_bytes (header_size 23)) < 3)
    by (vm_compute; reflexivity).
  destruct (C10_no_empty_frame frame_2_bytes 1 1 23 H L) as (_ & _ & Hz & _).
  split; [|reflexivity]. apply Hz. vm_compute. discriminate.
Defined.

(** A payload of fewer than 3 bytes whose pixel count is not 0: the buffer
    ends before the header does, the slice after the header is empty, the
    computed size is -6 and the pixel count -2; no width is computed and
    the decode fails on the root of a negative number, not on a division
    by a zero width. *)
Lemma C10_counterexample :
  (exists h0 w0, header_of frame_header_past_end = Some (h0, w0, 10))
  /\ len (slice_from frame_header_past_end (header_size 10)) = 0
  /\ match_resolution common_resolutions
       (len frame_header_past_end - header_size 10) = None
  /\ (len frame_header_past_end - header_size 10) / 3 = -2
  /\ (len frame_header_past_end - header_size 10) / 3 <> 0
  /\ int_sqrt ((len frame_header_past_end - header_size 10) / 3) <> Ret 0
  /\ parse_ros2_image_body frame_header_past_end = Raise TypeError
  /\ parse_ros2_image frame_header_past_end
     <> Ret (DecodeFailed ZeroDivisionError).
Proof.
  split; [eexists; eexists; reflexivity|].
  repeat split; try reflexivity; vm_compute; discriminate.
Qed.

(* ===================================================================== *)
(** ** Further properties: doubles on the wire *)
(* ===================================================================== *)

Section FloatFacts.

(** A well-formed double is above zero exactly when it is neither
    negative, nor a NaN, nor a zero. *)
Lemma gt_zero_iff (d : binary64) :
  wf d ->
  Float.gt_zero d = negb (sign d) && negb (is_nan d) && negb (Float.is_zero d).
Proof.
  destruct d as [s e f]. unfold wf, Float.gt_zero, Float.is_zero, is_nan, to_SF.
  cbn [sign bexp frac]. intros [He Hf].
  change (2 ^ 11) with 2048 in He. change (2 ^ 52) with 4503599627370496 in *.
  destruct (Z.eqb_spec e 2047) as [E1|E1].
  - replace (e =? 0) with false by (symmetry; apply Z.eqb_neq; lia).
    destruct (Z.eqb_spec f 0); destruct s; reflexivity.
  - destruct (Z.eqb_spec e 0) as [E0|E0].
    + destruct f as [|m|m]; [destruct s; reflexivity | | lia].
      destruct s; reflexivity.
    + destruct (4503599627370496 + f) as [|m|m] eqn:M; [lia | | lia].
      destruct s; reflexivity.
Qed.

(** Every 64-bit pattern is the pattern of the double it denotes. *)
Lemma bits_of_of_bits (w : Z) : 0 <= w < 2 ^ 64 -> bits_of (of_bits w) = w.
Proof.
  intros Hw. unfold bits_of, of_bits. cbn [sign bexp frac].
  rewrite Z.testbit_spec' by lia.
  change (2 ^ 64) with 18446744073709551616 in Hw.
  change (2 ^ 63) with 9223372036854775808.
  change (2 ^ 52) with 4503599627370496.
  change (2 ^ 11) with 2048.
  Z.div_mod_to_equations. lia.
Qed.

(** [struct.pack('<d', struct.unpack('<d', bs)[0])] gives [bs] back. *)
Lemma pack_d_of_bits (bs : bytes) :
  len bs = 8 -> pack_d (of_bits (le_combine bs)) = bs.
Proof.
  intros H. unfold pack_d.
  pose proof (le_combine_bound bs) as B.
  assert (L : List.length bs = 8%nat) by (unfold len in H; lia).
  rewrite L in B. change (8 * Z.of_nat 8) with 64 in B.
  rewrite bits_of_of_bits by exact B.
  rewrite <- L. apply split_le_combine.
Qed.

(** A slice cut in two at an inner bound. *)
Lemma slice_split (bs : bytes) (a b c : Z) :
  0 <= a <= b -> b <= c -> c <= len bs ->
  slice bs a c = slice bs a b ++ slice bs b c.
Proof.
  intros Hab Hbc Hc.
  destruct (slice_inside bs a c ltac:(lia) ltac:(lia)) as [-> _].
  destruct (slice_inside bs a b ltac:(lia) ltac:(lia)) as [-> _].
  destruct (slice_inside bs b c ltac:(lia) ltac:(lia)) as [-> _].
  replace (Z.to_nat b) with (Z.to_nat (b - a) + Z.to_nat a)%nat by lia.
  rewrite <- skipn_skipn.
  replace (Z.to_nat (c - a)) with (Z.to_nat (b - a) + Z.to_nat (c - b))%nat by lia.
  set (l := skipn (Z.to_nat a) bs).
  rewrite firstn_skipn_comm.
  rewrite <- (firstn_skipn (Z.to_nat (b - a))
                (firstn (Z.to_nat (b - a) + Z.to_nat (c - b)) l)) at 1.
  f_equal. rewrite firstn_firstn. f_equal. lia.
Qed.

Lemma slice_whole (bs : bytes) : slice bs 0 (len bs) = bs.
Proof.
  pose proof (len_nonneg bs).
  destruct (slice_inside bs 0 (len bs) ltac:(lia) ltac:(lia)) as [-> _].
  cbn [Z.to_nat skipn]. apply firstn_all2. unfold len. lia.
Qed.

End FloatFacts.

(* ===================================================================== *)
(** ** Further properties: the velocity command *)
(* ===================================================================== *)

(** X1: the encoder is injective: two pairs of well-formed doubles with the
    same 48-byte encoding are the same pair, field for field. *)
Theorem X1_create_twist_injective (fuel fuel' : nat) (x1 z1 x2 z2 : binary64) :
  wf x1 -> wf z1 -> wf x2 -> wf z2 ->
  create_twist_message (S fuel) x1 z1 = create_twist_message (S fuel') x2 z2 ->
  x1 = x2 /\ z1 = z2.
Proof.
  intros Hx1 Hz1 Hx2 Hz2 E.
  rewrite !create_twist_message_ok in E.
  assert (E' : twist_wire x1 z1 = twist_wire x2 z2) by congruence.
  clear E. rename E' into E.
  pose proof (slices_twist_wire x1 z1) as S1.
  pose proof (slices_twist_wire x2 z2) as S2. cbv zeta in S1, S2.
  destruct S1 as (A1 & _ & _ & _ & _ & B1 & _).
  destruct S2 as (A2 & _ & _ & _ & _ & B2 & _).
  rewrite E in A1, B1. rewrite A2 in A1. rewrite B2 in B1.
  split.
  - rewrite <- (of_bits_bits_of x1 Hx1), <- (of_bits_bits_of x2 Hx2).
    rewrite <- (le_combine_pack_d x1 Hx1), <- (le_combine_pack_d x2 Hx2).
    congruence.
  - rewrite <- (of_bits_bits_of z1 Hz1), <- (of_bits_bits_of z2 Hz2).
    rewrite <- (le_combine_pack_d z1 Hz1), <- (le_combine_pack_d z2 Hz2).
    congruence.
Qed.

Lemma X1_create_twist_injective_witness : d0_3 = d0_3 /\ zero = zero.
Proof.
  apply (X1_create_twist_injective 0 3 d0_3 zero d0_3 zero);
    try (unfold wf; cbn; lia); reflexivity.
Defined.

(** X2: decoding a 48-byte buffer and encoding its linear.x and angular.z
    again gives the buffer back exactly when its bytes 8 to 39 (linear.y,
    linear.z, angular.x, angular.y) are all zero; NaN payloads and signed
    zeros in the two kept fields are preserved. *)
Theorem X2_parse_then_create (fuel : nat) (data : bytes) (t : twist) :
  len data = 48 ->
  parse_twist_message data = Ret (Parsed t) ->
  (create_twist_message (S fuel) (x (linear t)) (z (angular t)) = Some (Ret data)
   <-> slice data 8 40 = repeat Init.Byte.x00 32).
Proof.
  intros L P. rewrite (parse_twist_message_48 data L) in P.
  injection P as <-. cbn [linear angular x z].
  rewrite create_twist_message_ok. unfold twist_wire.
  destruct (slice_inside data 0 8 ltac:(lia) ltac:(lia)) as [_ L0].
  destruct (slice_inside data 40 48 ltac:(lia) ltac:(lia)) as [_ L5].
  rewrite !pack_d_of_bits by assumption.
  assert (D : data = slice data 0 8 ++ slice data 8 40 ++ slice data 40 48).
  { rewrite <- (slice_split data 8 40 48) by lia.
    rewrite <- (slice_split data 0 8 48) by lia.
    rewrite <- L. symmetry. apply slice_whole. }
  destruct (slice_inside data 8 40 ltac:(lia) ltac:(lia)) as [_ L1].
  set (a := slice data 0 8) in *. set (m := slice data 8 40) in *.
  set (c := slice data 40 48) in *.
  change (pack_d zero ++ pack_d zero ++ pack_d zero ++ pack_d zero ++ c)
    with (repeat Init.Byte.x00 32 ++ c).
  split.
  - intros E.
    assert (E2 : a ++ repeat Init.Byte.x00 32 ++ c = a ++ m ++ c) by congruence.
    apply app_inv_head in E2. apply app_inv_tail in E2. symmetry. exact E2.
  - intros E. do 2 f_equal. rewrite <- E. symmetry. exact D.
Qed.

Lemma X2_parse_then_create_witness :
  create_twist_message 1 qnan (mk_binary64 true 0 0)
  = Some (Ret (twist_wire qnan (mk_binary64 true 0 0))).
Proof.
  apply (X2_parse_then_create 0 (twist_wire qnan (mk_binary64 true 0 0))
           {| linear := mk_Vector3 qnan zero zero;
              angular := mk_Vector3 zero zero (mk_binary64 true 0 0) |});
    reflexivity.
Defined.

(** X3: the monitor reports a sample that is not 48 bytes long as a parse
    failure, with no action; on 48 bytes the action is MOVING FORWARD
    exactly when the first double (linear.x) is above zero, so a NaN, either
    zero and every negative value give STOPPED, and the other 40 bytes play
    no part. *)
Theorem X3_monitor_action (data : bytes) :
  (len data <> 48 -> Monitor.on_twist_received data = Monitor.FailedToParse)
  /\ (len data = 48 ->
      let d := of_bits (le_combine (slice data 0 8)) in
      exists t,
        x (linear t) = d
        /\ Monitor.on_twist_received data
           = Monitor.TwistCommand t
               (if negb (sign d) && negb (is_nan d) && negb (Float.is_zero d)
                then Monitor.MOVING_FORWARD else Monitor.STOPPED)).
Proof.
  unfold Monitor.on_twist_received, Monitor.on_twist_body. split.
  - intros H. rewrite parse_twist_message_bad_length by exact H. reflexivity.
  - intros H. cbv zeta. rewrite parse_twist_message_48 by exact H.
    cbn [bind Twist.returned linear x].
    set (d := of_bits (le_combine (slice data 0 8))).
    rewrite (gt_zero_iff d (of_bits_wf _)).
    eexists. split; [|destruct (_ && _); reflexivity]. reflexivity.
Qed.

Lemma X3_monitor_action_witness :
  exists t,
    x (linear t) = qnan
    /\ Monitor.on_twist_received nan_inf_wire = Monitor.TwistCommand t Monitor.STOPPED.
Proof.
  exact (proj2 (X3_monitor_action nan_inf_wire) eq_refl).
Defined.

(* ===================================================================== *)
(** ** Further properties: the follower *)
(* ===================================================================== *)

Section FollowFacts.

Lemma twist_wire_stop : twist_wire zero zero = repeat Init.Byte.x00 48.
Proof. reflexivity. Qed.

(** The callback, case by case. *)
Lemma on_image_received_cases (fuel : nat) (c : Follow.collaborators)
      (payload : bytes) :
  Follow.on_image_received (S fuel) c payload =
    match parse_ros2_image payload with
    | Ret (Frame image) =>
        match Follow.imwrite c image with
        | Ret _ =>
            Some [twist_wire
                    (if fst (Follow.detect_human_with_qwen c image)
                     then d0_3 else zero) zero]
        | Raise _ => Some []
        end
    | _ => Some []
    end.
Proof.
  unfold Follow.on_image_received, Follow.on_image_body.
  destruct (parse_ros2_image payload) as [[f| | |]|]; cbn [Image.returned];
    try reflexivity.
  destruct (Follow.imwrite c f); [|reflexivity].
  destruct (Follow.detect_human_with_qwen c f) as [[|] answer]; cbn [fst];
    rewrite create_twist_message_ok; reflexivity.
Qed.

End FollowFacts.

(** X4: for one received frame nothing is published exactly when the frame
    does not decode or writing the debug image raises; in particular a
    frame that fails to decode does not make the robot stop. *)
Theorem X4_nothing_published (fuel : nat) (c : Follow.collaborators)
        (payload : bytes) :
  Follow.on_image_received (S fuel) c payload = Some []
  <-> ((forall image, parse_ros2_image payload <> Ret (Frame image))
       \/ exists image e, parse_ros2_image payload = Ret (Frame image)
                          /\ Follow.imwrite c image = Raise e).
Proof.
  rewrite on_image_received_cases.
  destruct (parse_ros2_image payload) as [[f| | |]|] eqn:P.
  - destruct (Follow.imwrite c f) as [b|e] eqn:W.
    + split; [discriminate|].
      intros [H | (f' & e & E & W')].
      * exfalso. apply (H f). reflexivity.
      * injection E as <-. congruence.
    + split; [|reflexivity]. intros _. right. exists f, e. auto.
  - split; [|reflexivity]. intros _. left. discriminate.
  - split; [|reflexivity]. intros _. left. discriminate.
  - split; [|reflexivity]. intros _. left. discriminate.
  - split; [|reflexivity]. intros _. left. discriminate.
Qed.

(** X5: whatever the frame and the collaborators, at most one buffer is
    published per frame and it is one of two: forward at 0.3 or the stop
    command of 48 zero bytes.  It always decodes, with linear.y, linear.z
    and all of angular equal to 0.0: the follower never turns and never
    reverses. *)
Theorem X5_published_commands (fuel : nat) (c : Follow.collaborators)
        (payload : bytes) (published : list bytes) :
  Follow.on_image_received fuel c payload = Some published ->
  (published = [] \/ published = [twist_wire d0_3 zero]
   \/ published = [repeat Init.Byte.x00 48])
  /\ forall msg, In msg published ->
       len msg = 48
       /\ exists v, (v = d0_3 \/ v = zero)
            /\ parse_twist_message msg
               = Ret (Parsed {| linear := mk_Vector3 v zero zero;
                                angular := mk_Vector3 zero zero zero |}).
Proof.
  intros H.
  assert (Shape : published = [] \/ published = [twist_wire d0_3 zero]
                  \/ published = [twist_wire zero zero]).
  { destruct fuel as [|fuel].
    - unfold Follow.on_image_received, Follow.on_image_body in H.
      destruct (parse_ros2_image payload) as [[f| | |]|]; cbn [Image.returned] in H;
        try (injection H as <-; left; reflexivity).
      destruct (Follow.imwrite c f); [|injection H as <-; left; reflexivity].
      destruct (Follow.detect_human_with_qwen c f) as [[|] answer];
        cbn [create_twist_message] in H; discriminate H.
    - rewrite on_image_received_cases in H.
      destruct (parse_ros2_image payload) as [[f| | |]|];
        try (injection H as <-; left; reflexivity).
      destruct (Follow.imwrite c f); [|injection H as <-; left; reflexivity].
      injection H as <-.
      destruct (fst (Follow.detect_human_with_qwen c f)); auto. }
  split.
  - rewrite <- twist_wire_stop. exact Shape.
  - intros msg Hin.
    destruct Shape as [-> | [-> | ->]]; cbn [In] in Hin;
      [contradiction | destruct Hin as [<- | []] | destruct Hin as [<- | []]].
    + split; [reflexivity|]. exists d0_3. split; [left; reflexivity | reflexivity].
    + split; [reflexivity|]. exists zero. split; [right; reflexivity | reflexivity].
Qed.

Lemma X5_published_commands_witness :
  len (twist_wire d0_3 zero) = 48
  /\ exists v, (v = d0_3 \/ v = zero)
       /\ parse_twist_message (twist_wire d0_3 zero)
          = Ret (Parsed {| linear := mk_Vector3 v zero zero;
                           angular := mk_Vector3 zero zero zero |}).
Proof.
  apply (proj2 (X5_published_commands 1 (steady true) frame_1x1
                  [twist_wire d0_3 zero] eq_refl)).
  left. reflexivity.
Defined.

(** X6: follower and monitor together: when the frame decodes and the
    debug image is written, exactly one command is published and the
    monitor reads it as MOVING FORWARD if the verdict was "human detected"
    and as STOPPED otherwise. *)
Theorem X6_follow_then_monitor (fuel : nat) (c : Follow.collaborators)
        (payload : bytes) (image : DecodedFrame) (written : bool) :
  parse_ros2_image payload = Ret (Frame image) ->
  Follow.imwrite c image = Ret written ->
  exists msg t,
    Follow.on_image_received (S fuel) c payload = Some [msg]
    /\ Monitor.on_twist_received msg
       = Monitor.TwistCommand t
           (if fst (Follow.detect_human_with_qwen c image)
            then Monitor.MOVING_FORWARD else Monitor.STOPPED)
    /\ z (angular t) = zero.
Proof.
  intros P W. rewrite on_image_received_cases, P, W.
  destruct (fst (Follow.detect_human_with_qwen c image)).
  - exists (twist_wire d0_3 zero). eexists.
    split; [reflexivity|]. split; reflexivity.
  - exists (twist_wire zero zero). eexists.
    split; [reflexivity|]. split; reflexivity.
Qed.

Lemma X6_follow_then_monitor_witness :
  exists msg t,
    Follow.on_image_received 1 (steady true) frame_1x1 = Some [msg]
    /\ Monitor.on_twist_received msg
       = Monitor.TwistCommand t Monitor.MOVING_FORWARD
    /\ z (angular t) = zero.
Proof.
  apply (X6_follow_then_monitor 0 (steady true) frame_1x1
           {| height := 1; width := 1;
              pixels := [Init.Byte.x03; Init.Byte.x02; Init.Byte.x01] |} true);
    reflexivity.
Defined.

(* ===================================================================== *)
(** ** Further properties: the outcomes of the frame decoder *)
(* ===================================================================== *)

Section OutcomeFacts.

(** The four bytes before the identifier marker are always there to
    read. *)
Lemma prefix_read (payload : bytes) (c : Z) :
  find payload (lit "camera") = c -> 4 <= c ->
  let prefix := slice payload (c - 4) (c - 4 + 4) in
  unpack_I prefix = Ret (le_combine prefix)
  /\ 0 <= le_combine prefix < 2 ^ 32
  /\ c + 6 <= len payload.
Proof.
  intros Hc H4 prefix.
  destruct (find_hit payload (lit "camera") c Hc ltac:(lia)) as (_ & Hocc & _).
  apply occurs_at_bound in Hocc. change (len (lit "camera")) with 6 in Hocc.
  destruct (slice_inside payload (c - 4) (c - 4 + 4) ltac:(lia) ltac:(lia)) as [_ L].
  fold prefix in L. replace (c - 4 + 4 - (c - 4)) with 4 in L by lia.
  unfold unpack_I. rewrite L. cbn [Z.eqb Pos.eqb].
  split; [reflexivity|]. split; [|lia].
  pose proof (le_combine_bound prefix) as B.
  replace (List.length prefix) with 4%nat in B by (unfold len in L; lia).
  exact B.
Qed.

(** A four-byte field is readable exactly when it ends inside the
    buffer. *)
Lemma field_read (payload : bytes) (lo : Z) :
  0 <= lo ->
  unpack_I (slice payload lo (lo + 4))
  = if lo + 4 <=? len payload
    then Ret (le_combine (slice payload lo (lo + 4)))
    else Raise StructError.
Proof.
  intros Hlo. pose proof (len_nonneg payload).
  unfold unpack_I. rewrite len_slice by lia.
  destruct (Z.leb_spec (lo + 4) (len payload)).
  - replace (Z.max 0 (Z.min (lo + 4) (len payload) - Z.min lo (len payload)))
      with 4 by lia. reflexivity.
  - destruct (Z.eqb_spec
      (Z.max 0 (Z.min (lo + 4) (len payload) - Z.min lo (len payload))) 4);
      [lia | reflexivity].
Qed.

(** The decoder, outcome by outcome. *)
Lemma parse_ros2_image_cases (payload : bytes) :
  let c := find payload (lit "camera") in
  let flen := le_combine (slice payload (c - 4) (c - 4 + 4)) in
  let p := find payload (lit "rgb8") in
  parse_ros2_image payload =
    if c =? -1 then Ret (MarkerNotFound frame_id)
    else if c <? 4 then Ret InvalidOffset
    else if len payload <? c + flen + 8 then Ret (DecodeFailed StructError)
    else if p =? -1 then Ret (MarkerNotFound encoding)
    else
      match reconcile (len payload - header_size p) with
      | Raise e => Ret (DecodeFailed e)
      | Ret (w, h) =>
          if len (slice_from payload (header_size p)) <? h * w * 3
          then Ret (DecodeFailed ValueError)
          else Ret (Frame {| height := h; width := w;
                             pixels := swap_rb (firstn (Z.to_nat (h * w * 3))
                                          (slice_from payload (header_size p))) |})
      end.
Proof.
  intros c flen p.
  destruct (Z.eqb_spec c (-1)) as [E | E].
  { unfold parse_ros2_image, parse_ros2_image_body. fold c. rewrite E. reflexivity. }
  destruct (Z.ltb_spec c 4) as [H4 | H4].
  { unfold parse_ros2_image, parse_ros2_image_body. fold c.
    destruct (Z.eqb_spec c (-1)); [contradiction|].
    destruct (Z.ltb_spec (c - 4) 0); [reflexivity | lia]. }
  destruct (prefix_read payload c eq_refl H4) as (R & B & _). cbv zeta in R, B.
  fold flen in R, B.
  destruct (Z.ltb_spec (len payload) (c + flen + 8)) as [Hs | Hs].
  { unfold parse_ros2_image, parse_ros2_image_body. fold c.
    destruct (Z.eqb_spec c (-1)); [contradiction|].
    destruct (Z.ltb_spec (c - 4) 0); [lia|].
    rewrite R. cbn [bind]. fold flen.
    rewrite (field_read payload (c + flen)) by lia.
    destruct (Z.leb_spec (c + flen + 4) (len payload)); [|reflexivity].
    cbn [bind].
    replace (c + flen + 8) with (c + flen + 4 + 4) by lia.
    rewrite (field_read payload (c + flen + 4)) by lia.
    destruct (Z.leb_spec (c + flen + 4 + 4) (len payload)); [lia | reflexivity]. }
  assert (Hdr : forall q, q <> -1 -> find payload (lit "rgb8") = q ->
     header_of payload
     = Some (le_combine (slice payload (c + flen) (c + flen + 4)),
             le_combine (slice payload (c + flen + 4) (c + flen + 8)), q)).
  { intros q Hq Eq. unfold header_of. fold c.
    destruct (Z.eqb_spec c (-1)); [contradiction|].
    destruct (Z.ltb_spec (c - 4) 0); [lia|]. cbn [orb].
    rewrite R. fold flen.
    rewrite (field_read payload (c + flen)) by lia.
    destruct (Z.leb_spec (c + flen + 4) (len payload)); [|lia].
    replace (c + flen + 8) with (c + flen + 4 + 4) by lia.
    rewrite (field_read payload (c + flen + 4)) by lia.
    destruct (Z.leb_spec (c + flen + 4 + 4) (len payload)); [|lia].
    rewrite Eq. destruct (Z.eqb_spec q (-1)); [contradiction | reflexivity]. }
  destruct (Z.eqb_spec p (-1)) as [Ep | Ep].
  { unfold parse_ros2_image, parse_ros2_image_body. fold c.
    destruct (Z.eqb_spec c (-1)); [contradiction|].
    destruct (Z.ltb_spec (c - 4) 0); [lia|].
    rewrite R. cbn [bind]. fold flen.
    rewrite (field_read payload (c + flen)) by lia.
    destruct (Z.leb_spec (c + flen + 4) (len payload)); [|lia]. cbn [bind].
    replace (c + flen + 8) with (c + flen + 4 + 4) by lia.
    rewrite (field_read payload (c + flen + 4)) by lia.
    destruct (Z.leb_spec (c + flen + 4 + 4) (len payload)); [|lia]. cbn [bind].
    fold p. rewrite Ep. reflexivity. }
  rewrite (parse_of_header _ _ _ _ (Hdr p Ep eq_refl)). reflexivity.
Qed.

(** A table match needs a payload of more than 921500 bytes. *)
Lemma match_common_resolution_large (size w h : Z) :
  match_resolution common_resolutions size = Some (w, h) ->
  640 * 480 * 3 - 100 < size.
Proof.
  intros M.
  destruct (Z.lt_ge_cases (640 * 480 * 3 - 100) size) as [|Hle]; [assumption|].
  rewrite match_common_resolution_small in M by lia. discriminate.
Qed.

(** The reconciliation raises on small payloads only, and then one of two
    exceptions. *)
Lemma reconcile_raises (size : Z) (e : exn) :
  reconcile size = Raise e <->
  (size < 0 /\ e = TypeError) \/ (0 <= size < 3 /\ e = ZeroDivisionError).
Proof.
  unfold reconcile.
  destruct (match_resolution common_resolutions size) as [[w h]|] eqn:M.
  - destruct (match_common_resolution _ _ _ M) as (Hw & Hh & Htol).
    split; [discriminate|].
    assert (640 * 480 * 3 - 100 < size).
    { destruct (Z.lt_ge_cases (640 * 480 * 3 - 100) size) as [|Hle]; [assumption|].
      rewrite match_common_resolution_small in M by lia. discriminate. }
    intros [[? _] | [? _]]; lia.
  - rewrite fallback_resolution_cases.
    destruct (Z.ltb_spec size 0).
    + split; [intros E; injection E as <-; left; split; [lia | reflexivity]|].
      intros [[_ ->] | [? _]]; [reflexivity | lia].
    + destruct (Z.ltb_spec size 3).
      * split; [intros E; injection E as <-; right; split; [lia | reflexivity]|].
        intros [[? _] | [_ ->]]; [lia | reflexivity].
      * split; [discriminate|]. intros [[? _] | [? _]]; lia.
Qed.

(** The frame returned through the fallback. *)
Lemma fallback_frame (payload : bytes) (h0 w0 p : Z) :
  header_of payload = Some (h0, w0, p) ->
  match_resolution common_resolutions (len payload - header_size p) = None ->
  3 <= len payload - header_size p ->
  parse_ros2_image payload
  = Ret (Frame
      {| height := (len payload - header_size p) / 3
                   / Z.sqrt ((len payload - header_size p) / 3);
         width := Z.sqrt ((len payload - header_size p) / 3);
         pixels :=
           swap_rb
             (firstn
                (Z.to_nat ((len payload - header_size p) / 3
                           / Z.sqrt ((len payload - header_size p) / 3)
                           * Z.sqrt ((len payload - header_size p) / 3) * 3))
                (slice_from payload (header_size p))) |}).
Proof.
  intros H M H3. rewrite (parse_of_header _ _ _ _ H).
  unfold reconcile. rewrite M, fallback_resolution_cases.
  destruct (Z.ltb_spec (len payload - header_size p) 0); [lia|].
  destruct (Z.ltb_spec (len payload - header_size p) 3); [lia|].
  cbv zeta.
  destruct (fallback_fits _ H3) as (_ & _ & Hfit). cbv zeta in Hfit.
  destruct (body_of_header _ _ _ _ H) as (_ & _ & Hp & _).
  rewrite len_slice_from by (unfold header_size; lia).
  destruct (Z.ltb_spec (Z.max 0 (len payload - header_size p))
              ((len payload - header_size p) / 3
               / Z.sqrt ((len payload - header_size p) / 3)
               * Z.sqrt ((len payload - header_size p) / 3) * 3));
    [lia | reflexivity].
Qed.

End OutcomeFacts.

(** X7: the decoder reports an invalid offset exactly when "camera" occurs
    within the first four bytes of the buffer, where no length prefix fits
    before it. *)
Theorem X7_invalid_offset (payload : bytes) :
  parse_ros2_image payload = Ret InvalidOffset
  <-> exists i, 0 <= i < 4 /\ occurs_at (lit "camera") payload i.
Proof.
  rewrite parse_ros2_image_cases. cbv zeta.
  set (c := find payload (lit "camera")).
  assert (Hfirst : c <> -1 ->
            0 <= c /\ occurs_at (lit "camera") payload c
            /\ forall j, 0 <= j < c -> ~ occurs_at (lit "camera") payload j)
    by (intros Hc; exact (find_hit payload (lit "camera") c eq_refl Hc)).
  assert (Hback : forall i, 0 <= i < 4 -> occurs_at (lit "camera") payload i ->
            c <> -1 /\ c < 4).
  { intros i Hi Hocc.
    assert (c <> -1) as Hc.
    { intros E. apply find_miss_iff in E. apply E.
      destruct Hocc as (pre & post & Hp & _). exists pre, post. exact Hp. }
    split; [exact Hc|]. destruct (Hfirst Hc) as (H0 & _ & Hmin).
    destruct (Z.lt_ge_cases i c) as [Hlt | Hge]; [|lia].
    exfalso. apply (Hmin i); [lia | exact Hocc]. }
  destruct (Z.eqb_spec c (-1)) as [E | E].
  { split; [discriminate|]. intros (i & Hi & Hocc).
    destruct (Hback i Hi Hocc). contradiction. }
  destruct (Z.ltb_spec c 4) as [H4 | H4].
  { split; [|reflexivity]. intros _. destruct (Hfirst E) as (H0 & Hocc & _).
    exists c. split; [lia | exact Hocc]. }
  assert (No : ~ exists i, 0 <= i < 4 /\ occurs_at (lit "camera") payload i).
  { intros (i & Hi & Hocc). destruct (Hback i Hi Hocc). lia. }
  destruct (_ <? _); [split; [discriminate | intros H; contradiction]|].
  destruct (_ =? _); [split; [discriminate | intros H; contradiction]|].
  destruct (reconcile _) as [[w h]|e];
    [|split; [discriminate | intros H; contradiction]].
  destruct (_ <? _); split; try discriminate; intros H; contradiction.
Qed.

(** X8: the exceptions the handler absorbs, one by one.  With the marker
    at [c >= 4] and the declared identifier length [flen]: struct.error
    when the eight dimension bytes do not end inside the buffer; TypeError
    when the header runs past the end of the buffer; ZeroDivisionError on
    a payload of 0, 1 or 2 bytes; ValueError when a matched table
    resolution needs more bytes than the payload has.  No other exception
    is ever absorbed; cv2.cvtColor is never given an empty image. *)
Theorem X8_absorbed_exceptions (payload : bytes) (e : exn) :
  let c := find payload (lit "camera") in
  let flen := le_combine (slice payload (c - 4) (c - 4 + 4)) in
  let p := find payload (lit "rgb8") in
  let size := len payload - (p + 10) in
  parse_ros2_image payload = Ret (DecodeFailed e)
  <-> 4 <= c
      /\ ((e = StructError /\ len payload < c + flen + 8)
          \/ (c + flen + 8 <= len payload /\ p <> -1
              /\ ((e = TypeError /\ size < 0)
                  \/ (e = ZeroDivisionError /\ 0 <= size < 3)
                  \/ (e = ValueError
                      /\ exists w h,
                           match_resolution common_resolutions size = Some (w, h)
                           /\ size < w * h * 3)))).
Proof.
  intros c flen p size.
  rewrite parse_ros2_image_cases. cbv zeta. fold c. fold flen. fold p.
  replace (len payload - header_size p) with size by (unfold size, header_size; lia).
  destruct (Z.eqb_spec c (-1)) as [E | E].
  { split; [discriminate | intros [H _]; lia]. }
  destruct (Z.ltb_spec c 4) as [H4 | H4].
  { split; [discriminate | intros [H _]; lia]. }
  destruct (Z.ltb_spec (len payload) (c + flen + 8)) as [Hs | Hs].
  { split.
    - intros H. injection H as <-. split; [lia|]. left. split; [reflexivity | lia].
    - intros [_ [[-> _] | [H _]]]; [reflexivity | lia]. }
  destruct (Z.eqb_spec p (-1)) as [Ep | Ep].
  { split; [discriminate|]. intros [_ [[_ H] | [_ [H _]]]]; [lia | contradiction]. }
  assert (P0 : 0 <= p).
  { pose proof (find_from_cases (lit "rgb8") payload 0) as Hp.
    fold (find payload (lit "rgb8")) in Hp. fold p in Hp. lia. }
  assert (Ls : len (slice_from payload (header_size p)) = Z.max 0 size).
  { rewrite len_slice_from by (unfold header_size; lia).
    unfold size, header_size. f_equal. lia. }
  rewrite Ls.
  destruct (reconcile size) as [[w h]|e'] eqn:R.
  - destruct (reconcile_positive _ _ _ R) as (Hw & Hh & _).
    assert (Hpos : 0 < h * w * 3) by nia.
    assert (Hcomm : w * h * 3 = h * w * 3) by ring.
    clearbody size.
    unfold reconcile in R.
    destruct (match_resolution common_resolutions size) as [[w' h']|] eqn:M.
    + injection R as -> ->.
      destruct (Z.ltb_spec (Z.max 0 size) (h * w * 3)) as [Hshort | Hlong].
      * split.
        -- intros H. injection H as <-. split; [lia|]. right.
           split; [lia|]. split; [exact Ep|]. right. right.
           split; [reflexivity|]. exists w, h. split; [reflexivity | lia].
        -- pose proof (match_common_resolution_large _ _ _ M) as T.
           intros [_ [[_ H] | [_ [_ [[_ H] | [[_ H] | [-> _]]]]]]]; try lia.
           reflexivity.
      * split; [discriminate|].
        pose proof (match_common_resolution_large _ _ _ M) as T.
        intros [_ [[_ H] | [_ [_ [[_ H] | [[_ H] | [_ (w1 & h1 & M1 & H1)]]]]]]];
          try lia.
        injection M1 as <- <-. lia.
    + rewrite fallback_resolution_cases in R.
      destruct (Z.ltb_spec size 0); [discriminate R|].
      destruct (Z.ltb_spec size 3); [discriminate R|].
      injection R as <- <-.
      destruct (fallback_fits size ltac:(lia)) as (_ & _ & Hfit). cbv zeta in Hfit.
      destruct (Z.ltb_spec (Z.max 0 size)
                  (size / 3 / Z.sqrt (size / 3) * Z.sqrt (size / 3) * 3)); [lia|].
      split; [discriminate|].
      intros [_ [[_ Hx] | [_ [_ [[_ Hx] | [[_ Hx] | [_ (w1 & h1 & M1 & _)]]]]]]];
        try lia. discriminate M1.
  - apply reconcile_raises in R.
    split.
    + intros H. injection H as <-. split; [lia|]. right.
      split; [lia|]. split; [exact Ep|].
      destruct R as [[Hr ->] | [Hr ->]]; [left | right; left]; auto.
    + intros [_ [[_ H] | [_ [_ [[-> H] | [[-> H] | [_ (w1 & h1 & M1 & H1)]]]]]]].
      * lia.
      * destruct R as [[_ ->] | [? _]]; [reflexivity | lia].
      * destruct R as [[? _] | [_ ->]]; [lia | reflexivity].
      * exfalso. pose proof (match_common_resolution_large _ _ _ M1) as T.
        destruct R as [[? _] | [? _]]; lia.
Qed.

(** X9: the missing-encoding report is given exactly when the identifier
    and the dimension fields are readable and "rgb8" occurs nowhere in the
    buffer. *)
Theorem X9_missing_encoding_marker (payload : bytes) :
  let c := find payload (lit "camera") in
  let flen := le_combine (slice payload (c - 4) (c - 4 + 4)) in
  parse_ros2_image payload = Ret (MarkerNotFound encoding)
  <-> 4 <= c /\ c + flen + 8 <= len payload /\ ~ contains payload (lit "rgb8").
Proof.
  intros c flen.
  rewrite parse_ros2_image_cases. cbv zeta. fold c. fold flen.
  rewrite <- find_miss_iff.
  destruct (Z.eqb_spec c (-1)) as [E | E].
  { split; [discriminate | intros [H _]; lia]. }
  destruct (Z.ltb_spec c 4) as [H4 | H4].
  { split; [discriminate | intros [H _]; lia]. }
  destruct (Z.ltb_spec (len payload) (c + flen + 8)) as [Hs | Hs].
  { split; [discriminate | intros [_ [H _]]; lia]. }
  destruct (Z.eqb_spec (find payload (lit "rgb8")) (-1)) as [Ep | Ep].
  { split; [intros _; repeat split; [lia | lia | exact Ep] | reflexivity]. }
  destruct (reconcile _) as [[w h]|e'].
  - destruct (_ <? _); (split; [discriminate | intros (_ & _ & H); contradiction]).
  - split; [discriminate | intros (_ & _ & H); contradiction].
Qed.

(** X10: a frame is returned exactly when the identifier marker is at
    [c >= 4], the eight dimension bytes end inside the buffer, "rgb8"
    occurs, and the payload after the header holds the whole frame of the
    matched table resolution or, with no match, at least three bytes. *)
Theorem X10_decode_succeeds_iff (payload : bytes) :
  let c := find payload (lit "camera") in
  let flen := le_combine (slice payload (c - 4) (c - 4 + 4)) in
  let p := find payload (lit "rgb8") in
  let size := len payload - (p + 10) in
  (exists f, parse_ros2_image payload = Ret (Frame f))
  <-> 4 <= c /\ c + flen + 8 <= len payload /\ p <> -1
      /\ match match_resolution common_resolutions size with
         | Some (w, h) => w * h * 3 <= size
         | None => 3 <= size
         end.
Proof.
  intros c flen p size.
  rewrite parse_ros2_image_cases. cbv zeta. fold c. fold flen. fold p.
  replace (len payload - header_size p) with size by (unfold size, header_size; lia).
  destruct (Z.eqb_spec c (-1)) as [E | E].
  { split; [intros [f H]; discriminate H | intros [H _]; lia]. }
  destruct (Z.ltb_spec c 4) as [H4 | H4].
  { split; [intros [f H]; discriminate H | intros [H _]; lia]. }
  destruct (Z.ltb_spec (len payload) (c + flen + 8)) as [Hs | Hs].
  { split; [intros [f H]; discriminate H | intros [_ [H _]]; lia]. }
  destruct (Z.eqb_spec p (-1)) as [Ep | Ep].
  { split; [intros [f H]; discriminate H | intros (_ & _ & H & _); contradiction]. }
  assert (P0 : 0 <= p).
  { pose proof (find_from_cases (lit "rgb8") payload 0) as Hp.
    fold (find payload (lit "rgb8")) in Hp. fold p in Hp. lia. }
  assert (Ls : len (slice_from payload (header_size p)) = Z.max 0 size).
  { rewrite len_slice_from by (unfold header_size; lia).
    unfold size, header_size. f_equal. lia. }
  rewrite Ls. clearbody size. unfold reconcile.
  destruct (match_resolution common_resolutions size) as [[w h]|] eqn:M.
  - destruct (match_common_resolution _ _ _ M) as (Hw & Hh & _).
    assert (Hcomm : w * h * 3 = h * w * 3) by ring.
    assert (Hpos : 0 < h * w * 3) by nia.
    destruct (Z.ltb_spec (Z.max 0 size) (h * w * 3)).
    + split; [intros [f H']; discriminate H' | intros (_ & _ & _ & H'); lia].
    + split; [intros _; repeat split; try assumption; lia | intros _; eauto].
  - rewrite fallback_resolution_cases.
    destruct (Z.ltb_spec size 0) as [Hn | Hn].
    { split; [intros [f H]; discriminate H | intros (_ & _ & _ & H); lia]. }
    destruct (Z.ltb_spec size 3) as [H3 | H3].
    { split; [intros [f H]; discriminate H | intros (_ & _ & _ & H); lia]. }
    destruct (fallback_fits size ltac:(lia)) as (_ & _ & Hfit). cbv zeta in Hfit.
    destruct (Z.ltb_spec (Z.max 0 size)
                (size / 3 / Z.sqrt (size / 3) * Z.sqrt (size / 3) * 3)); [lia|].
    split; [intros _; repeat split; assumption | intros _; eauto].
Qed.

(** X11: a frame decoded through the fallback is nearly square, with
    [width <= height <= width + 2], whatever the true aspect ratio was, and
    fewer than [3 * width] payload bytes are dropped. *)
Theorem X11_fallback_nearly_square (payload : bytes) (h0 w0 p : Z)
        (f : DecodedFrame) :
  header_of payload = Some (h0, w0, p) ->
  let size := len payload - header_size p in
  match_resolution common_resolutions size = None ->
  parse_ros2_image payload = Ret (Frame f) ->
  width f <= height f <= width f + 2
  /\ 0 <= size - len (pixels f) < 3 * width f.
Proof.
  intros H size M P.
  rewrite (parse_of_header _ _ _ _ H) in P. fold size in P.
  unfold reconcile in P. rewrite M, fallback_resolution_cases in P.
  destruct (Z.ltb_spec size 0); [discriminate P|].
  destruct (Z.ltb_spec size 3) as [|H3]; [discriminate P|].
  cbv zeta in P.
  destruct (_ <? _); [discriminate P|]. injection P as <-.
  cbn [width height pixels].
  set (q := size / 3). set (w := Z.sqrt q). set (h := q / w).
  destruct (fallback_fits size H3) as (Hw & Hh & Hfit). cbv zeta in Hfit.
  fold q in Hw, Hh, Hfit. fold w in Hw, Hh, Hfit. fold h in Hh, Hfit.
  assert (Hq : 0 <= q) by (subst q; Z.div_mod_to_equations; lia).
  pose proof (Z.sqrt_spec q Hq) as S. fold w in S. unfold Z.succ in S.
  assert (Hdiv : q = w * h + q mod w /\ 0 <= q mod w < w).
  { split; [apply Z.div_mod; lia | apply Z.mod_pos_bound; lia]. }
  assert (Hsz : size = 3 * q + size mod 3 /\ 0 <= size mod 3 < 3).
  { split; [apply Z.div_mod; lia | apply Z.mod_pos_bound; lia]. }
  assert (Lp : len (swap_rb (firstn (Z.to_nat (h * w * 3))
                      (slice_from payload (header_size p)))) = h * w * 3).
  { rewrite len_swap_rb. unfold len. rewrite length_firstn.
    destruct (body_of_header _ _ _ _ H) as (_ & _ & Hp & _).
    pose proof (len_slice_from payload (header_size p)
                  ltac:(unfold header_size; lia)) as Ls.
    fold size in Ls. unfold len in Ls. nia. }
  rewrite Lp. split.
  - split; [subst h; apply Z.div_le_lower_bound; lia|].
    assert (q < (w + 1) * (w + 1)) by lia. nia.
  - nia.
Qed.

Lemma X11_fallback_nearly_square_witness :
  exists f, parse_ros2_image frame_301x173 = Ret (Frame f)
            /\ width f <= height f <= width f + 2
            /\ 0 <= len frame_301x173 - header_size 23 - len (pixels f) < 3 * width f.
Proof.
  assert (H : header_of frame_301x173 = Some (173, 301, 23))
    by (vm_compute; reflexivity).
  assert (M : match_resolution common_resolutions
                (len frame_301x173 - header_size 23) = None)
    by (vm_compute; reflexivity).
  assert (H3 : 3 <= len frame_301x173 - header_size 23)
    by (vm_compute; discriminate).
  pose proof (fallback_frame _ _ _ _ H M H3) as P.
  eexists. split; [exact P|].
  exact (X11_fallback_nearly_square frame_301x173 173 301 23 _ H M P).
Defined.

(** X12: the tolerance below a table resolution is of no use: a payload 1
    to 99 bytes short of a candidate is matched to it and then fails to
    decode, because the array cannot take the shape. *)
Theorem X12_short_of_table_resolution (payload : bytes) (h0 w0 p w h : Z) :
  header_of payload = Some (h0, w0, p) ->
  In (w, h) common_resolutions ->
  w * h * 3 - 100 < len payload - header_size p < w * h * 3 ->
  match_resolution common_resolutions (len payload - header_size p) = Some (w, h)
  /\ parse_ros2_image payload = Ret (DecodeFailed ValueError).
Proof.
  intros H Hin Hsz.
  set (size := len payload - header_size p) in *.
  assert (M : match_resolution common_resolutions size = Some (w, h)).
  { clearbody size. unfold common_resolutions in *. cbn [In] in Hin.
    cbn [match_resolution].
    repeat (destruct Hin as [Hin | Hin];
            [injection Hin as <- <-;
             repeat match goal with
                    | |- context [Z.abs ?a <? 100] =>
                        destruct (Z.ltb_spec (Z.abs a) 100); try lia
                    end; reflexivity|]).
    contradiction. }
  split; [exact M|].
  rewrite (parse_of_header _ _ _ _ H). fold size.
  unfold reconcile. rewrite M. cbv zeta.
  destruct (body_of_header _ _ _ _ H) as (_ & _ & Hp & _).
  rewrite len_slice_from by (unfold header_size; lia). fold size.
  destruct (match_common_resolution _ _ _ M) as (Hw & Hh & _).
  destruct (Z.ltb_spec (Z.max 0 size) (h * w * 3)); [reflexivity | nia].
Qed.

Lemma X12_short_of_table_resolution_witness :
  match_resolution common_resolutions (len frame_640x480_short - header_size 23)
  = Some (640, 480)
  /\ parse_ros2_image frame_640x480_short = Ret (DecodeFailed ValueError).
Proof.
  assert (H : header_of frame_640x480_short = Some (480, 640, 23))
    by (vm_compute; reflexivity).
  apply (X12_short_of_table_resolution frame_640x480_short 480 640 23 640 480 H).
  - left. reflexivity.
  - vm_compute. split; reflexivity.
Defined.

(* ===================================================================== *)
(** ** Further properties: the factorial gist *)
(* ===================================================================== *)

Section FactorialFacts.

Lemma range_from (lo : Z) (m : nat) :
  Gist.range lo (lo + Z.of_nat m) = map (fun k => lo + Z.of_nat k) (seq 0 m).
Proof. unfold Gist.range. do 2 f_equal. lia. Qed.

Lemma range_snoc (lo : Z) (m : nat) :
  Gist.range lo (lo + Z.of_nat (S m))
  = Gist.range lo (lo + Z.of_nat m) ++ [lo + Z.of_nat m].
Proof. rewrite !range_from, seq_S, map_app. reflexivity. Qed.

Lemma range_empty (lo hi : Z) : hi <= lo -> Gist.range lo hi = [].
Proof.
  intros H. unfold Gist.range. replace (Z.to_nat (hi - lo)) with 0%nat by lia.
  reflexivity.
Qed.

(** The loop of [factorial_iterative] over [range(1, m + 1)]. *)
Lemma factorial_loop (m : nat) :
  fold_left (fun result i => result * i) (Gist.range 1 (1 + Z.of_nat m)) 1
  = Z.of_nat (fact m).
Proof.
  induction m as [|m IH].
  - reflexivity.
  - rewrite range_snoc, fold_left_app, IH. cbn [fold_left].
    change (fact (S m)) with (S m * fact m)%nat.
    rewrite Nat2Z.inj_mul. lia.
Qed.

Lemma factorial_iterative_value (n : Z) :
  0 <= n -> Gist.factorial_iterative n = Gist.Return (Z.of_nat (fact (Z.to_nat n))).
Proof.
  intros H. unfold Gist.factorial_iterative.
  destruct (Z.ltb_spec n 0); [lia|].
  replace (n + 1) with (1 + Z.of_nat (Z.to_nat n)) by lia.
  rewrite factorial_loop. reflexivity.
Qed.

Lemma fact_pos_Z (m : nat) : 1 <= Z.of_nat (fact m).
Proof. pose proof (lt_O_fact m). lia. Qed.

End FactorialFacts.

(** X13: [factorial_iterative] raises ValueError on every negative
    argument and otherwise returns n!, the product 1 * 2 * ... * n (1 for
    n = 0). *)
Theorem X13_factorial_iterative (n : Z) :
  Gist.factorial_iterative n
  = if n <? 0 then Gist.Raised Gist.ValueError
    else Gist.Return (Z.of_nat (fact (Z.to_nat n))).
Proof.
  destruct (Z.ltb_spec n 0) as [H | H].
  - unfold Gist.factorial_iterative. destruct (Z.ltb_spec n 0); [reflexivity | lia].
  - apply factorial_iterative_value, H.
Qed.

(** X14: the recursive and the iterative factorial agree on every integer,
    negative ones included, once the recursion is given a depth of n
    calls. *)
Theorem X14_factorial_versions_agree (fuel : nat) (n : Z) :
  (Z.to_nat n <= fuel)%nat ->
  Gist.factorial (S fuel) n = Some (Gist.factorial_iterative n).
Proof.
  revert n. induction fuel as [|fuel IH]; intros n Hfuel.
  - cbn [Gist.factorial]. unfold Gist.factorial_iterative.
    destruct (Z.ltb_spec n 0); [reflexivity|].
    assert (n = 0) as -> by lia. reflexivity.
  - cbn [Gist.factorial] in *.
    destruct (Z.ltb_spec n 0) as [Hn | Hn].
    { unfold Gist.factorial_iterative.
      destruct (Z.ltb_spec n 0); [reflexivity | lia]. }
    rewrite factorial_iterative_value by exact Hn.
    destruct (Z.eqb_spec n 0) as [-> | H0]; [reflexivity|].
    destruct (Z.eqb_spec n 1) as [-> | H1]; [reflexivity|].
    cbn [orb].
    specialize (IH (n - 1) ltac:(lia)).
    destruct (Z.ltb_spec (n - 1) 0) as [|_]; [lia|].
    assert (Z.to_nat n = S (Z.to_nat (n - 1))) as E by lia.
    destruct ((n - 1 =? 0) || (n - 1 =? 1)) eqn:B.
    + assert (n = 2) as -> by
        (apply orb_true_iff in B; destruct B as [B | B]; apply Z.eqb_eq in B; lia).
      reflexivity.
    + rewrite IH, factorial_iterative_value by lia.
      rewrite E. change (fact (S (Z.to_nat (n - 1))))
        with (S (Z.to_nat (n - 1)) * fact (Z.to_nat (n - 1)))%nat.
      do 2 f_equal. rewrite Nat2Z.inj_mul. lia.
Qed.

Lemma X14_factorial_versions_agree_witness :
  Gist.factorial 21 20 = Some (Gist.factorial_iterative 20).
Proof.
  apply (X14_factorial_versions_agree 20 20). exact (le_n 20).
Defined.

Section ScriptFacts.

(** A number that passes the validation converts to a non-negative
    integer. *)
Lemma to_int_nonneg (v : Gist.py_value) (i : Z) :
  Gist.negative v = false -> Gist.to_int v = Gist.Return i -> 0 <= i.
Proof.
  destruct v as [k|b|d|s|]; cbn [Gist.negative Gist.to_int]; intros N E.
  - injection E as <-. apply Z.ltb_ge, N.
  - injection E as <-. destruct b; cbn; lia.
  - unfold Float.lt_zero in N.
    destruct (to_SF d) as [s|s| |s m ex]; try discriminate E.
    + cbn in E. injection E as <-. lia.
    + destruct s; [cbn in N; discriminate N|].
      change (int_of_float (S754_finite false m ex))
        with (Some (if 0 <=? ex then Zpos m * 2 ^ ex else Zpos m / 2 ^ (- ex))) in E.
      assert (Ei : i = if 0 <=? ex then Zpos m * 2 ^ ex else Zpos m / 2 ^ (- ex))
        by congruence.
      rewrite Ei. clear E Ei.
      destruct (Z.leb_spec 0 ex).
      * apply Z.mul_nonneg_nonneg; [lia | apply Z.pow_nonneg; lia].
      * apply Z.div_pos; [lia|]. apply Z.pow_pos_nonneg; lia.
  - discriminate E.
  - discriminate E.
Qed.

(** [d.get(key, default)] on a dictionary without the key. *)
Lemma dict_get_missing (d : Gist.dict) (key : string) (default : Gist.py_value) :
  (forall v, ~ In (key, v) d) -> Gist.dict_get d key default = default.
Proof.
  induction d as [|[k v] rest IH]; intros H; cbn [Gist.dict_get].
  - reflexivity.
  - destruct (String.eqb_spec k key) as [-> | _].
    + exfalso. apply (H v). left. reflexivity.
    + apply IH. intros v' Hin. apply (H v'). right. exact Hin.
Qed.

End ScriptFacts.

(** X15: whenever factorial.py produces a result, its input_number is a
    non-negative integer, its factorial entry is the factorial of that
    number (so at least 1), the method is "iterative", and worker id, time
    and timestamp are passed through. *)
Theorem X15_factorial_script_result (e : Gist.environment) (r : Gist.factorial_result) :
  Gist.factorial_script e = Gist.Return r ->
  0 <= Gist.r_input_number r
  /\ Gist.r_factorial r = Z.of_nat (fact (Z.to_nat (Gist.r_input_number r)))
  /\ 1 <= Gist.r_factorial r
  /\ Gist.to_int (Gist.dict_get (Gist.inputs e) "number" (Gist.PyInt 10))
     = Gist.Return (Gist.r_input_number r)
  /\ Gist.r_method r = "iterative"%string
  /\ Gist.r_worker_id r = Gist.worker_id e
  /\ Gist.r_computation_time_ms r = Gist.computation_time_ms e
  /\ Gist.r_timestamp r = Gist.timestamp e.
Proof.
  unfold Gist.factorial_script.
  set (number := Gist.dict_get (Gist.inputs e) "number" (Gist.PyInt 10)).
  destruct (negb (Gist.is_number number)); cbn [orb]; [discriminate|].
  destruct (Gist.negative number) eqn:N; [discriminate|].
  destruct (Gist.to_int number) as [i|err] eqn:T; cbn [Gist.and_then]; [|discriminate].
  pose proof (to_int_nonneg _ _ N T) as Hi.
  rewrite factorial_iterative_value by exact Hi. cbn [Gist.and_then].
  intros E. injection E as <-.
  cbn [Gist.r_input_number Gist.r_factorial Gist.r_method Gist.r_worker_id
       Gist.r_computation_time_ms Gist.r_timestamp].
  repeat split; try assumption. apply fact_pos_Z.
Qed.

Lemma X15_factorial_script_result_witness :
  0 <= 5
  /\ 120 = Z.of_nat (fact (Z.to_nat 5))
  /\ 1 <= 120
  /\ Gist.to_int (Gist.dict_get
        [("number"%string, Gist.PyFloat (mk_binary64 false 1025 1970324836974592))]
        "number" (Gist.PyInt 10)) = Gist.Return 5
  /\ "iterative"%string = "iterative"%string
  /\ "worker-1"%string = "worker-1"%string
  /\ 0 = 0
  /\ "2024-01-01 00:00:00"%string = "2024-01-01 00:00:00"%string.
Proof.
  exact (X15_factorial_script_result
           (env_of [("number"%string,
                     Gist.PyFloat (mk_binary64 false 1025 1970324836974592))])
           {| Gist.r_factorial := 120; Gist.r_input_number := 5;
              Gist.r_computation_time_ms := 0; Gist.r_worker_id := "worker-1";
              Gist.r_method := "iterative";
              Gist.r_timestamp := "2024-01-01 00:00:00" |}
           eq_refl).
Defined.

(** X16: how factorial.py fails.  It raises ValueError exactly when the
    input is not a number, is below zero, or is a NaN; it raises
    OverflowError exactly when the input is the double +infinity, which
    passes the validation; it raises nothing else. *)
Theorem X16_factorial_script_errors (e : Gist.environment) :
  let number := Gist.dict_get (Gist.inputs e) "number" (Gist.PyInt 10) in
  (Gist.factorial_script e = Gist.Raised Gist.ValueError
   <-> Gist.is_number number = false \/ Gist.negative number = true
       \/ exists d, number = Gist.PyFloat d /\ to_SF d = S754_nan)
  /\ (Gist.factorial_script e = Gist.Raised Gist.OverflowError
      <-> exists d, number = Gist.PyFloat d /\ to_SF d = S754_infinity false)
  /\ Gist.factorial_script e <> Gist.Raised Gist.IndexError.
Proof.
  intros number. unfold Gist.factorial_script. fold number.
  destruct number as [k|b|d|s|] eqn:V; cbn [Gist.is_number Gist.negative negb orb].
  - destruct (Z.ltb_spec k 0) as [Hk | Hk]; cbn [Gist.to_int Gist.and_then].
    + split; [split; auto|]. split; [|discriminate].
      split; [discriminate | intros (d & E & _); discriminate E].
    + rewrite factorial_iterative_value by exact Hk. cbn [Gist.and_then].
      split; [|split; [|discriminate]].
      * split; [discriminate|].
        intros [H | [H | (d & E & _)]]; discriminate.
      * split; [discriminate | intros (d & E & _); discriminate E].
  - cbn [Gist.to_int Gist.and_then].
    rewrite factorial_iterative_value by (destruct b; cbn; lia).
    cbn [Gist.and_then]. split; [|split; [|discriminate]].
    + split; [discriminate|]. intros [H | [H | (d & E & _)]]; discriminate.
    + split; [discriminate | intros (d & E & _); discriminate E].
  - destruct (Float.lt_zero d) eqn:N.
    + split; [split; auto|]. split; [|discriminate]. split; [discriminate|].
      intros (d' & E & I). injection E as <-.
      unfold Float.lt_zero in N. rewrite I in N. discriminate N.
    + destruct (Gist.to_int (Gist.PyFloat d)) as [i|err] eqn:T.
      * pose proof (to_int_nonneg (Gist.PyFloat d) i N T) as Hi.
        cbn [Gist.and_then]. rewrite factorial_iterative_value by exact Hi.
        cbn [Gist.and_then]. cbn [Gist.to_int] in T.
        split; [|split; [|discriminate]].
        -- split; [discriminate|].
           intros [H | [H | (d' & E & I)]]; try discriminate.
           injection E as <-. rewrite I in T. discriminate T.
        -- split; [discriminate|]. intros (d' & E & I). injection E as <-.
           rewrite I in T. discriminate T.
      * cbn [Gist.and_then]. cbn [Gist.to_int] in T.
        unfold Float.lt_zero in N.
        destruct (to_SF d) as [s0|s0| |s0 m ex] eqn:SF.
        -- cbn in T. discriminate T.
        -- destruct s0; [cbn in N; discriminate N|]. injection T as <-.
           split; [|split; [|discriminate]].
           ++ split; [discriminate|].
              intros [H | [H | (d' & E & I)]]; try discriminate.
              injection E as <-. congruence.
           ++ split; [intros _; exists d; auto | reflexivity].
        -- injection T as <-. split; [|split; [|discriminate]].
           ++ split; [intros _; right; right; exists d; auto | reflexivity].
           ++ split; [discriminate|]. intros (d' & E & I). injection E as <-.
              congruence.
        -- cbn in T. discriminate T.
  - split; [split; auto|]. split; [|discriminate].
    split; [discriminate | intros (d & E & _); discriminate E].
  - split; [split; auto|]. split; [|discriminate].
    split; [discriminate | intros (d & E & _); discriminate E].
Qed.

(** X17: without a "number" entry in the inputs, factorial.py computes the
    factorial of 10. *)
Theorem X17_factorial_script_default (e : Gist.environment) :
  (forall v, ~ In ("number"%string, v) (Gist.inputs e)) ->
  exists r, Gist.factorial_script e = Gist.Return r
            /\ Gist.r_input_number r = 10 /\ Gist.r_factorial r = 3628800.
Proof.
  intros H. unfold Gist.factorial_script.
  rewrite dict_get_missing by exact H.
  eexists. split; [reflexivity|]. split; reflexivity.
Qed.

Lemma X17_factorial_script_default_witness :
  exists r, Gist.factorial_script (env_of [("terms"%string, Gist.PyInt 3)])
            = Gist.Return r
            /\ Gist.r_input_number r = 10 /\ Gist.r_factorial r = 3628800.
Proof.
  apply (X17_factorial_script_default (env_of [("terms"%string, Gist.PyInt 3)])).
  intros v [H | []]. discriminate H.
Defined.

(* ===================================================================== *)
(** ** Further properties: the Fibonacci gist *)
(* ===================================================================== *)

Section FibonacciFacts.

Lemma fib_pair_snd (k : nat) : snd (fib_pair k) = Fib (S k).
Proof. unfold Fib. cbn [fib_pair]. destruct (fib_pair k). reflexivity. Qed.

Lemma Fib_SS (k : nat) : Fib (S (S k)) = Fib (S k) + Fib k.
Proof.
  rewrite <- (fib_pair_snd (S k)). cbn [fib_pair].
  rewrite <- (fib_pair_snd k). unfold Fib.
  destruct (fib_pair k) as [a b]. cbn [fst snd]. lia.
Qed.

Lemma Fib_nonneg (k : nat) : 0 <= Fib k /\ 0 <= Fib (S k).
Proof.
  induction k as [|k [IH1 IH2]]; [cbn; lia|].
  split; [exact IH2 | rewrite Fib_SS; lia].
Qed.

Lemma length_Fib_prefix (n : nat) : List.length (Fib_prefix n) = n.
Proof. unfold Fib_prefix. rewrite length_map, length_seq. reflexivity. Qed.

Lemma Fib_prefix_S (n : nat) : Fib_prefix (S n) = Fib_prefix n ++ [Fib n].
Proof. unfold Fib_prefix. rewrite seq_S, map_app. reflexivity. Qed.

Lemma nth_Fib_prefix (n j : nat) : (j < n)%nat -> nth j (Fib_prefix n) 0 = Fib j.
Proof.
  intros H. unfold Fib_prefix. change 0 with (Fib 0) at 1.
  rewrite map_nth, seq_nth by exact H. reflexivity.
Qed.

(** Indexing the prefix from the front and from the back never raises
    inside it. *)
Lemma getitem_Fib_prefix (n j : nat) :
  (j < n)%nat ->
  Gist.getitem (Fib_prefix n) (Z.of_nat j) = Gist.Return (Fib j)
  /\ Gist.getitem (Fib_prefix n) (Z.of_nat j - Z.of_nat n) = Gist.Return (Fib j).
Proof.
  intros H. unfold Gist.getitem. rewrite length_Fib_prefix. split.
  - destruct (Z.ltb_spec (Z.of_nat j) 0); [lia|].
    destruct (Z.ltb_spec (Z.of_nat j) 0); [lia|].
    destruct (Z.leb_spec (Z.of_nat n) (Z.of_nat j)); [lia|]. cbn [orb].
    rewrite Nat2Z.id, nth_Fib_prefix by exact H. reflexivity.
  - destruct (Z.ltb_spec (Z.of_nat j - Z.of_nat n) 0); [|lia].
    replace (Z.of_nat j - Z.of_nat n + Z.of_nat n) with (Z.of_nat j) by lia.
    destruct (Z.ltb_spec (Z.of_nat j) 0); [lia|].
    destruct (Z.leb_spec (Z.of_nat n) (Z.of_nat j)); [lia|]. cbn [orb].
    rewrite Nat2Z.id, nth_Fib_prefix by exact H. reflexivity.
Qed.

(** The loop of [fibonacci_iterative] over [range(2, 2 + m)]. *)
Lemma iterative_loop (m : nat) :
  fold_left Gist.iterative_step (Gist.range 2 (2 + Z.of_nat m))
            (Gist.Return (Fib_prefix 2))
  = Gist.Return (Fib_prefix (2 + m)).
Proof.
  induction m as [|m IH].
  - reflexivity.
  - rewrite range_snoc, fold_left_app, IH. cbn [fold_left].
    unfold Gist.iterative_step. cbn [Gist.and_then].
    replace (2 + Z.of_nat m - 1) with (Z.of_nat (S m)) by lia.
    replace (2 + Z.of_nat m - 2) with (Z.of_nat m) by lia.
    destruct (getitem_Fib_prefix (2 + m) (S m) ltac:(lia)) as [-> _].
    destruct (getitem_Fib_prefix (2 + m) m ltac:(lia)) as [-> _].
    cbn [Gist.and_then]. rewrite <- Fib_SS.
    change (2 + S m)%nat with (S (2 + m)). rewrite (Fib_prefix_S (2 + m)).
    reflexivity.
Qed.

Lemma fibonacci_iterative_value (n : Z) :
  Gist.fibonacci_iterative n = Gist.Return (Fib_prefix (Z.to_nat n)).
Proof.
  unfold Gist.fibonacci_iterative.
  destruct (Z.leb_spec n 0).
  { replace (Z.to_nat n) with 0%nat by lia. reflexivity. }
  destruct (Z.eqb_spec n 1) as [-> | H1]; [reflexivity|].
  destruct (Z.eqb_spec n 2) as [-> | H2]; [reflexivity|].
  replace n with (2 + Z.of_nat (Z.to_nat n - 2)) at 1 by lia.
  change [0; 1] with (Fib_prefix 2). rewrite iterative_loop.
  do 2 f_equal. lia.
Qed.

(** The loop of [fibonacci_generator] over [range(m)]. *)
Lemma generator_loop (m : nat) :
  fold_left Gist.generator_step (Gist.range 0 (0 + Z.of_nat m)) (0, 1, [])
  = (Fib m, Fib (S m), Fib_prefix m).
Proof.
  induction m as [|m IH].
  - reflexivity.
  - rewrite range_snoc, fold_left_app, IH. cbn [fold_left Gist.generator_step].
    rewrite Fib_prefix_S, Fib_SS. do 2 f_equal. lia.
Qed.

Lemma fibonacci_generator_value (n : Z) :
  Gist.fibonacci_generator n = Gist.Return (Fib_prefix (Z.to_nat n)).
Proof.
  unfold Gist.fibonacci_generator.
  destruct (Z.leb_spec n 0).
  { replace (Z.to_nat n) with 0%nat by lia. reflexivity. }
  replace n with (0 + Z.of_nat (Z.to_nat n)) at 1 by lia.
  rewrite generator_loop. reflexivity.
Qed.

Lemma fibonacci_recursive_value (fuel : nat) (n : Z) :
  (Z.to_nat n <= fuel)%nat ->
  Gist.fibonacci_recursive (S fuel) n = Some (Gist.Return (Fib_prefix (Z.to_nat n))).
Proof.
  revert n. induction fuel as [|fuel IH]; intros n Hfuel.
  - cbn [Gist.fibonacci_recursive].
    destruct (Z.leb_spec n 0); [|lia].
    replace (Z.to_nat n) with 0%nat by lia. reflexivity.
  - cbn [Gist.fibonacci_recursive] in *.
    destruct (Z.leb_spec n 0).
    { replace (Z.to_nat n) with 0%nat by lia. reflexivity. }
    destruct (Z.eqb_spec n 1) as [-> | H1]; [reflexivity|].
    destruct (Z.eqb_spec n 2) as [-> | H2]; [reflexivity|].
    specialize (IH (n - 1) ltac:(lia)).
    destruct (Z.leb_spec (n - 1) 0); [lia|].
    destruct (Z.eqb_spec (n - 1) 1); [lia|].
    destruct (Z.eqb_spec (n - 1) 2) as [E2 | E2].
    + assert (n = 3) as -> by lia. reflexivity.
    + rewrite IH.
      set (k := Z.to_nat (n - 1)).
      assert (Hk : (2 <= k)%nat) by lia.
      replace (-1) with (Z.of_nat (k - 1) - Z.of_nat k) by lia.
      replace (-2) with (Z.of_nat (k - 2) - Z.of_nat k) by lia.
      destruct (getitem_Fib_prefix k (k - 1) ltac:(lia)) as [_ ->].
      destruct (getitem_Fib_prefix k (k - 2) ltac:(lia)) as [_ ->].
      cbn [Gist.and_then].
      replace (Z.to_nat n) with (S k) by lia. rewrite Fib_prefix_S.
      do 4 f_equal.
      replace k with (S (S (k - 2))) at 3 by lia.
      rewrite Fib_SS. do 2 f_equal; lia.
Qed.

(** The sum of the first [n] Fibonacci numbers. *)
Lemma sum_Fib_prefix (n : nat) : Gist.sum (Fib_prefix n) = Fib (S n) - 1.
Proof.
  unfold Gist.sum. induction n as [|n IH].
  - reflexivity.
  - rewrite Fib_prefix_S, fold_left_app, IH. cbn [fold_left].
    rewrite Fib_SS. lia.
Qed.

End FibonacciFacts.

(** X18: [fibonacci_iterative(n)] returns the first n Fibonacci numbers
    0, 1, 1, 2, 3, ... for every integer n (none for n <= 0) and never
    raises IndexError; so the list has max(n, 0) entries, and each entry
    from the third on is the sum of the two before it. *)
Theorem X18_fibonacci_iterative (n : Z) :
  exists sequence,
    Gist.fibonacci_iterative n = Gist.Return sequence
    /\ sequence = Fib_prefix (Z.to_nat n)
    /\ Z.of_nat (List.length sequence) = Z.max n 0
    /\ nth 0 sequence 0 = 0
    /\ (2 <= n -> nth 1 sequence 0 = 1)
    /\ forall i, (i + 2 < List.length sequence)%nat ->
         nth (i + 2) sequence 0 = nth (i + 1) sequence 0 + nth i sequence 0.
Proof.
  exists (Fib_prefix (Z.to_nat n)).
  split; [apply fibonacci_iterative_value|]. split; [reflexivity|].
  rewrite length_Fib_prefix. split; [lia|]. split; [|split].
  - destruct (Z.to_nat n); reflexivity.
  - intros H. rewrite nth_Fib_prefix by lia. reflexivity.
  - intros i Hi. rewrite !nth_Fib_prefix by lia.
    replace (i + 2)%nat with (S (S i)) by lia.
    replace (i + 1)%nat with (S i) by lia. apply Fib_SS.
Qed.

(** X19: the three implementations return the same list for every n, the
    recursive one once it is given a depth of n calls. *)
Theorem X19_fibonacci_versions_agree (fuel : nat) (n : Z) :
  (Z.to_nat n <= fuel)%nat ->
  Gist.fibonacci_recursive (S fuel) n = Some (Gist.fibonacci_iterative n)
  /\ Gist.fibonacci_generator n = Gist.fibonacci_iterative n.
Proof.
  intros H.
  rewrite fibonacci_recursive_value by exact H.
  rewrite fibonacci_generator_value, fibonacci_iterative_value. split; reflexivity.
Qed.

Lemma X19_fibonacci_versions_agree_witness :
  Gist.fibonacci_recursive 13 12 = Some (Gist.fibonacci_iterative 12)
  /\ Gist.fibonacci_generator 12 = Gist.fibonacci_iterative 12.
Proof.
  apply (X19_fibonacci_versions_agree 12 12). exact (le_n 12).
Defined.

(** X20: whenever fibonacci.py produces a result, its sequence is the
    first [terms] Fibonacci numbers, [terms] is their count, last_term is
    None for an empty sequence and the last number otherwise, and
    sequence_sum is Fib(terms + 1) - 1 (0 for an empty sequence). *)
Theorem X20_fibonacci_script_result (e : Gist.environment)
        (r : Gist.fibonacci_result) :
  Gist.fibonacci_script e = Gist.Return r ->
  let n := Z.to_nat (Gist.r_terms r) in
  0 <= Gist.r_terms r
  /\ Gist.to_int (Gist.dict_get (Gist.inputs e) "terms" (Gist.PyInt 10))
     = Gist.Return (Gist.r_terms r)
  /\ Gist.r_sequence r = Fib_prefix n
  /\ Gist.r_last_term r = match n with O => None | S k => Some (Fib k) end
  /\ Gist.r_sequence_sum r = Fib (S n) - 1
  /\ Gist.f_method r = "iterative"%string.
Proof.
  unfold Gist.fibonacci_script.
  set (terms := Gist.dict_get (Gist.inputs e) "terms" (Gist.PyInt 10)).
  destruct (negb (Gist.is_number terms)); cbn [orb]; [discriminate|].
  destruct (Gist.negative terms) eqn:N; [discriminate|].
  destruct (Gist.to_int terms) as [i|err] eqn:T; cbn [Gist.and_then]; [|discriminate].
  pose proof (to_int_nonneg _ _ N T) as Hi.
  rewrite fibonacci_iterative_value. cbn [Gist.and_then].
  assert (L : Z.of_nat (List.length (Fib_prefix (Z.to_nat i))) = i)
    by (rewrite length_Fib_prefix; lia).
  destruct (Z.to_nat i) as [|k] eqn:K.
  - cbn [Fib_prefix map seq Gist.and_then]. intros E. injection E as <-.
    cbn [Gist.r_terms Gist.r_sequence Gist.r_last_term Gist.r_sequence_sum
         Gist.f_method List.length Z.of_nat Z.to_nat].
    assert (i = 0) as -> by lia. repeat split; reflexivity || lia.
  - assert (Hc : exists a rest, Fib_prefix (S k) = a :: rest).
    { unfold Fib_prefix. cbn [seq map]. eauto. }
    destruct Hc as (a & rest & Hc).
    assert (G : Gist.getitem (Fib_prefix (S k)) (-1) = Gist.Return (Fib k)).
    { replace (-1) with (Z.of_nat k - Z.of_nat (S k)) by lia.
      apply getitem_Fib_prefix. lia. }
    pose proof (sum_Fib_prefix (S k)) as Sm.
    rewrite Hc in G, Sm, L |- *. rewrite G. cbn [Gist.and_then].
    intros E. injection E as <-.
    cbn [Gist.r_terms Gist.r_sequence Gist.r_last_term Gist.r_sequence_sum
         Gist.f_method].
    change (Z.pos (Pos.of_succ_nat (List.length rest)))
      with (Z.of_nat (List.length (a :: rest))).
    rewrite L, K. repeat split; try assumption; try reflexivity.
    congruence.
Qed.

Lemma X20_fibonacci_script_result_witness :
  Gist.r_last_term
    {| Gist.r_sequence := [0; 1; 1; 2; 3]; Gist.r_terms := 5;
       Gist.r_last_term := Some 3; Gist.f_computation_time_ms := 0;
       Gist.f_worker_id := "worker-1"; Gist.f_method := "iterative";
       Gist.f_timestamp := "2024-01-01 00:00:00"; Gist.r_sequence_sum := 7 |}
  = Some (Fib 4)
  /\ 7 = Fib 6 - 1.
Proof.
  pose proof (X20_fibonacci_script_result
                (env_of [("terms"%string, Gist.PyInt 5)])
                {| Gist.r_sequence := [0; 1; 1; 2; 3]; Gist.r_terms := 5;
                   Gist.r_last_term := Some 3; Gist.f_computation_time_ms := 0;
                   Gist.f_worker_id := "worker-1"; Gist.f_method := "iterative";
                   Gist.f_timestamp := "2024-01-01 00:00:00";
                   Gist.r_sequence_sum := 7 |}
                eq_refl) as H.
  cbv zeta in H. destruct H as (_ & _ & _ & Hl & Hs & _).
  split; [exact Hl | exact Hs].
Defined.
